(** * cmmx: dense matrix product on an accelerator (kernel.cu)

    A shallow embedding of [src/kernel.cu]: the [Matrix] descriptor, the tile
    accessor [GetSubMatrix], the two kernels [MatMulKernelGeneral] and
    [MatMulKernelPartitioned], and the host routine [MatMul].

    - An [int] is a [Z] in [INT_MIN..INT_MAX]; every [int] operation of the
      source is written with its 32-bit wrap-around ([to_int]).
    - A [float] is a value of an arbitrary type [F] with an addition, a
      multiplication and the constant [0]; nothing is assumed about these
      operations (no associativity, no commutativity), so every equation
      proved below holds bit for bit for IEEE binary32.  [binary32] is the
      instance used for the worked examples.
    - A pointer is a buffer together with an element offset.  Memories are
      total maps from pointers to floats.
    - Device code runs in the state monad [K] over the global memory, the two
      shared tiles of the running thread block and the list of global-memory
      accesses made so far. *)

From Stdlib Require Import ZArith List Lia Bool Lists.Finite Sorting.Permutation.
From Stdlib Require Import Floats.SpecFloat.
Import ListNotations.
Local Open Scope Z_scope.

Set Implicit Arguments.

(** ** Machine integers *)

Definition INT_MAX : Z := 2147483647.
Definition INT_MIN : Z := -2147483648.

(** Conversion to [int] (two's complement, 32 bits). *)
Definition to_int (z : Z) : Z := (z + 2147483648) mod 4294967296 - 2147483648.
(** Conversion to [unsigned int]. *)
Definition to_uint (z : Z) : Z := z mod 4294967296.
(** Conversion to [size_t] (64 bits). *)
Definition to_size (z : Z) : Z := z mod 18446744073709551616.

Definition iadd (a b : Z) : Z := to_int (a + b).
Definition imul (a b : Z) : Z := to_int (a * b).
(** [int / int] truncates towards zero. *)
Definition idiv (a b : Z) : Z := to_int (Z.quot a b).
(** [unsigned / unsigned]. *)
Definition udiv (a b : Z) : Z := to_uint a / to_uint b.

(** [#define BLOCK_SIZE 16] *)
Definition BLOCK_SIZE : Z := 16.
(** [sizeof(float)] *)
Definition sizeof_float : Z := 4.

(** The indices [0, 1, ..., n-1] (none when [n <= 0]). *)
Definition range (n : Z) : list Z := map Z.of_nat (seq 0 (Z.to_nat n)).

(** [for (int e = 0; e < bound; ++e) s = body e s;] returns the final value
    of the counter and the final state.  The counter stays below [bound], an
    [int], so [++e] cannot overflow. *)
Fixpoint for_fuel (S : Type) (fuel : nat) (e bound : Z)
         (body : Z -> S -> S) (s : S) : Z * S :=
  match fuel with
  | O => (e, s)
  | Datatypes.S k =>
      if e <? bound then for_fuel k (e + 1) bound body (body e s) else (e, s)
  end.

Definition for_int (S : Type) (bound : Z) (body : Z -> S -> S) (s : S) : Z * S :=
  for_fuel (Z.to_nat bound) 0 bound body s.

(** ** Pointers and the matrix descriptor *)

Record ptr : Type := { blk : Z; off : Z }.

(** [&p[i]] *)
Definition ptr_add (p : ptr) (i : Z) : ptr := {| blk := blk p; off := off p + i |}.

Definition ptr_eqb (p q : ptr) : bool := (blk p =? blk q) && (off p =? off q).

(** [typedef struct { int width; int height; int stride; float* elements; } Matrix;] *)
Record Matrix : Type :=
  { width : Z; height : Z; stride : Z; elements : ptr }.

(** The layout rule of the data model: element [(r, c)] of the view [M] is at
    [data[r * stride + c]]. *)
Definition elem_addr (M : Matrix) (r c : Z) : ptr :=
  ptr_add (elements M) (r * stride M + c).

(** A three-component index as CUDA has it; only [x] and [y] are used. *)
Record dim3 : Type := { dim_x : Z; dim_y : Z }.

(** The threads of a block and the blocks of a grid, [y] outermost. *)
Definition dim3_indices (d : dim3) : list dim3 :=
  flat_map (fun j => map (fun i => {| dim_x := i; dim_y := j |}) (range (dim_x d)))
           (range (dim_y d)).

(** Global-memory accesses, as addresses. *)
Inductive access : Type :=
| Rd (p : ptr)
| Wr (p : ptr).

(** ** Floats *)

Class FloatOps (F : Type) : Type :=
  { fadd : F -> F -> F;
    fmul : F -> F -> F;
    fzero : F }.

(** IEEE binary32 on the specification floats of the standard library. *)
#[export] Instance binary32 : FloatOps spec_float :=
  { fadd := SFadd 24 128;
    fmul := SFmul 24 128;
    fzero := S754_zero false }.

Section Model.
Context (F : Type) `{FloatOps F}.

Definition memory : Type := ptr -> F.

Definition upd (m : memory) (p : ptr) (v : F) : memory :=
  fun q => if ptr_eqb q p then v else m q.

(** A [BLOCK_SIZE] x [BLOCK_SIZE] array in shared memory, [t row col]. *)
Definition tile : Type := Z -> Z -> F.

Definition upd2 (t : tile) (r c : Z) (v : F) : tile :=
  fun r' c' => if (r' =? r) && (c' =? c) then v else t r' c'.

(** The left-to-right sum [(((0 + f 0) + f 1) + ...) + f (n-1)]. *)
Definition sum_lr (f : Z -> F) (n : Z) : F :=
  fold_left (fun acc e => fadd acc (f e)) (range n) fzero.

(** *** The device monad *)

Record kstate : Type :=
  { gmem : memory;          (* device global memory *)
    shAs : tile;            (* __shared__ float As[BLOCK_SIZE][BLOCK_SIZE] *)
    shBs : tile;            (* __shared__ float Bs[BLOCK_SIZE][BLOCK_SIZE] *)
    trace : list access }.  (* global accesses, oldest first *)

Definition K (X : Type) : Type := kstate -> X * kstate.

Definition ret (X : Type) (v : X) : K X := fun s => (v, s).

Definition bind (X Y : Type) (m : K X) (f : X -> K Y) : K Y :=
  fun s => let (v, s') := m s in f v s'.

(** [p[i]] read from global memory. *)
Definition load (p : ptr) (i : Z) : K F :=
  fun s => (gmem s (ptr_add p i),
            {| gmem := gmem s; shAs := shAs s; shBs := shBs s;
               trace := trace s ++ [Rd (ptr_add p i)] |}).

(** [p[i] = v] written to global memory. *)
Definition store (p : ptr) (i : Z) (v : F) : K unit :=
  fun s => (tt,
            {| gmem := upd (gmem s) (ptr_add p i) v; shAs := shAs s; shBs := shBs s;
               trace := trace s ++ [Wr (ptr_add p i)] |}).

Definition get_As (r c : Z) : K F := fun s => (shAs s r c, s).
Definition get_Bs (r c : Z) : K F := fun s => (shBs s r c, s).

Definition set_As (r c : Z) (v : F) : K unit :=
  fun s => (tt, {| gmem := gmem s; shAs := upd2 (shAs s) r c v; shBs := shBs s;
                   trace := trace s |}).

Definition set_Bs (r c : Z) (v : F) : K unit :=
  fun s => (tt, {| gmem := gmem s; shAs := shAs s; shBs := upd2 (shBs s) r c v;
                   trace := trace s |}).

(** A counted loop carrying a value; the result pairs the final counter
    with the value. *)
Definition for_K (X : Type) (bound : Z) (body : Z -> X -> K X) (v : X) : K (Z * X) :=
  fun s =>
    let '(e, (v', s')) :=
      for_int bound (fun e (vs : X * kstate) => body e (fst vs) (snd vs)) (v, s) in
    ((e, v'), s').

(** One pass over a list of work items, in list order. *)
Fixpoint fold_K (T X : Type) (f : X -> T -> K X) (l : list T) (v : X) : K X :=
  match l with
  | [] => ret v
  | t :: l' => bind (f v t) (fun v' => fold_K f l' v')
  end.

Definition each_K (T : Type) (f : T -> K unit) (l : list T) : K unit :=
  fold_K (fun _ t => f t) l tt.

End Model.

Declare Scope kernel_scope.
Delimit Scope kernel_scope with kernel.
Notation "x <- m ;; k" := (bind m (fun x => k))
  (at level 61, m at next level, right associativity) : kernel_scope.
Notation "m ;;; k" := (bind m (fun _ => k))
  (at level 61, right associativity) : kernel_scope.

Section Device.
Context {F : Type} `{FloatOps F}.
Local Open Scope kernel_scope.

(** *** [GetSubMatrix] (kernel.cu, lines 98-106) *)

(** The local [Asub] when the function returns. *)
Definition Asub (A : Matrix) (row col : Z) : Matrix :=
  {| width := BLOCK_SIZE;
     height := BLOCK_SIZE;
     stride := stride A;
     elements := ptr_add (elements A)
                   (iadd (imul (imul (stride A) BLOCK_SIZE) row)
                         (imul BLOCK_SIZE col)) |}.

Definition GetSubMatrix (A : Matrix) (row col : Z) : K F Matrix :=
  ret (Asub A row col).

(** The address of [M.elements[r * M.stride + c]], the index being an [int]. *)
Definition int_elem_addr (M : Matrix) (r c : Z) : ptr :=
  ptr_add (elements M) (iadd (imul r (stride M)) c).

(** *** [MatMulKernelGeneral] (lines 73-83), one thread *)
Definition MatMulKernelGeneral (A B C : Matrix)
           (blockIdx blockDim threadIdx : dim3) : K F unit :=
  let row := to_int (to_uint (dim_y blockIdx * dim_y blockDim + dim_y threadIdx)) in
  let col := to_int (to_uint (dim_x blockIdx * dim_x blockDim + dim_x threadIdx)) in
  r <- for_K (width A)
         (fun e Cvalue =>
            a <- load (elements A) (iadd (imul row (width A)) e) ;;
            b <- load (elements B) (iadd (imul e (width B)) col) ;;
            ret (fadd Cvalue (fmul a b)))
         fzero ;;
  store (elements C) (iadd (imul row (width C)) col) (snd r).

(** *** [MatMulKernelPartitioned] (lines 108-151)

    The two [__syncthreads()] of the loop body cut the kernel into phases
    that every thread of the block finishes before any thread starts the
    next one: the collective load (lines 127-136), the multiplication of
    the two tiles (lines 141-142) and, after the loop, the write of
    [Csub] (line 150). *)

(** Lines 127-136 for the thread [(row, col)]. *)
Definition Partitioned_load (A B : Matrix) (blockRow blockCol m row col : Z) : K F unit :=
  Asub <- GetSubMatrix A blockRow m ;;
  Bsub <- GetSubMatrix B m blockCol ;;
  a <- load (elements Asub) (iadd (imul row (stride Asub)) col) ;;
  set_As row col a ;;;
  b <- load (elements Bsub) (iadd (imul row (stride Bsub)) col) ;;
  set_Bs row col b.

(** Lines 141-142 for the thread [(row, col)]. *)
Definition Partitioned_mac (row col : Z) (Cvalue : F) : K F F :=
  r <- for_K BLOCK_SIZE
         (fun e Cvalue =>
            a <- get_As row e ;;
            b <- get_Bs e col ;;
            ret (fadd Cvalue (fmul a b)))
         Cvalue ;;
  ret (snd r).

(** Line 150 for the thread [(row, col)]. *)
Definition Partitioned_store (Csub : Matrix) (row col : Z) (Cvalue : F) : K F unit :=
  store (elements Csub) (iadd (imul row (stride Csub)) col) Cvalue.

(** The private [Cvalue] of every thread of the block, by [threadIdx.y]
    and [threadIdx.x]. *)
Definition registers : Type := tile F.

(** One iteration of the loop over [m] (lines 125-147) for the whole block. *)
Definition Partitioned_iteration (A B : Matrix) (blockRow blockCol : Z)
           (threads : list dim3) (m : Z) (Cvalue : registers) : K F registers :=
  each_K (fun t => Partitioned_load A B blockRow blockCol m
                     (to_int (dim_y t)) (to_int (dim_x t))) threads ;;;
  (* __syncthreads() *)
  fold_K (fun (Cv : registers) t =>
            let row := to_int (dim_y t) in
            let col := to_int (dim_x t) in
            v <- Partitioned_mac row col (Cv row col) ;;
            ret (upd2 Cv row col v)) threads Cvalue
  (* __syncthreads() *).

(** The loop over [m], from [float Cvalue = 0] on: the final value of the
    counter [m] and the [Cvalue] of every thread. *)
Definition Partitioned_loop (A B : Matrix) (blockIdx blockDim : dim3) : K F (Z * registers) :=
  let blockRow := to_int (dim_y blockIdx) in
  let blockCol := to_int (dim_x blockIdx) in
  for_K (idiv (width A) BLOCK_SIZE)
        (Partitioned_iteration A B blockRow blockCol (dim3_indices blockDim))
        (fun _ _ => fzero).

(** One thread block. *)
Definition MatMulKernelPartitioned (A B C : Matrix) (blockIdx blockDim : dim3) : K F unit :=
  let blockRow := to_int (dim_y blockIdx) in
  let blockCol := to_int (dim_x blockIdx) in
  Csub <- GetSubMatrix C blockRow blockCol ;;
  r <- Partitioned_loop A B blockIdx blockDim ;;
  each_K (fun t => let row := to_int (dim_y t) in
                   let col := to_int (dim_x t) in
                   Partitioned_store Csub row col (snd r row col))
         (dim3_indices blockDim).

(** *** Kernel launches [<<<dimGrid, dimBlock>>>] *)
Inductive kernel : Type := KernelGeneral | KernelPartitioned.

Definition launch (k : kernel) (dimGrid dimBlock : dim3) (A B C : Matrix) : K F unit :=
  match k with
  | KernelGeneral =>
      each_K (fun b => each_K (MatMulKernelGeneral A B C b dimBlock)
                              (dim3_indices dimBlock))
             (dim3_indices dimGrid)
  | KernelPartitioned =>
      each_K (fun b => MatMulKernelPartitioned A B C b dimBlock)
             (dim3_indices dimGrid)
  end.

End Device.


(** ** The accelerator runtime *)

(** What the host asks of the runtime, oldest first. *)
Inductive event : Type :=
| EvMalloc (handle bytes : Z)
| EvMallocFailed (bytes : Z)
| EvLaunch (k : kernel) (dimGrid dimBlock : dim3)
| EvFree (handle : Z)
| EvFreeInvalid (p : ptr).

Section Host.
Context {F : Type} `{FloatOps F}.

Record state : Type :=
  { host : memory F;            (* host memory *)
    device : kstate F;          (* accelerator memory and access trace *)
    live : list (Z * Z);        (* accelerator buffers held: handle, bytes *)
    capacity : Z;               (* bytes of accelerator memory *)
    launch_ok : bool;           (* whether a kernel can be scheduled *)
    events : list event }.

Definition used (l : list (Z * Z)) : Z := fold_right (fun hb n => snd hb + n) 0 l.

Definition handles (l : list (Z * Z)) : list Z := map fst l.

Definition fresh (l : list (Z * Z)) : Z := 1 + fold_right Z.max 0 (handles l).

Definition is_live (h : Z) (l : list (Z * Z)) : bool := existsb (Z.eqb h) (handles l).

Definition release (h : Z) (l : list (Z * Z)) : list (Z * Z) :=
  filter (fun hb => negb (fst hb =? h)) l.

(** Modelled from the spec: the accelerator memory service,
    [allocate(bytes) -> handle | fails(OutOfMemory)].  [cudaMalloc(&p, size)]
    stores the new buffer in [p] when the pool has room and leaves [p] as it
    was otherwise; the result is the value of [p] afterwards. *)
Definition cudaMalloc (p : ptr) (size : Z) (st : state) : ptr * state :=
  if used (live st) + size <=? capacity st then
    let h := fresh (live st) in
    ({| blk := h; off := 0 |},
     {| host := host st; device := device st;
        live := (h, size) :: live st;
        capacity := capacity st; launch_ok := launch_ok st;
        events := events st ++ [EvMalloc h size] |})
  else
    (p,
     {| host := host st; device := device st; live := live st;
        capacity := capacity st; launch_ok := launch_ok st;
        events := events st ++ [EvMallocFailed size] |}).

(** Modelled from the spec: [free(handle)].  A pointer that is not the start
    of a buffer held by the pool releases nothing. *)
Definition cudaFree (p : ptr) (st : state) : state :=
  if (off p =? 0) && is_live (blk p) (live st) then
    {| host := host st; device := device st;
       live := release (blk p) (live st);
       capacity := capacity st; launch_ok := launch_ok st;
       events := events st ++ [EvFree (blk p)] |}
  else
    {| host := host st; device := device st; live := live st;
       capacity := capacity st; launch_ok := launch_ok st;
       events := events st ++ [EvFreeInvalid p] |}.

(** [n] elements of [src_mem] from [src] on, laid over [dst_mem] from [dst] on. *)
Definition copy (dst_mem src_mem : memory F) (dst src : ptr) (n : Z) : memory F :=
  fun q =>
    if (blk q =? blk dst) && (off dst <=? off q) && (off q <? off dst + n)
    then src_mem (ptr_add src (off q - off dst))
    else dst_mem q.

(** Modelled from the spec: [copyHostToDevice(handle, hostPtr, bytes)]. *)
Definition cudaMemcpyHostToDevice (dst src : ptr) (size : Z) (st : state) : state :=
  {| host := host st;
     device := {| gmem := copy (gmem (device st)) (host st) dst src (size / sizeof_float);
                  shAs := shAs (device st); shBs := shBs (device st);
                  trace := trace (device st) |};
     live := live st; capacity := capacity st; launch_ok := launch_ok st;
     events := events st |}.

(** Modelled from the spec: [copyDeviceToHost(hostPtr, handle, bytes)]. *)
Definition cudaMemcpyDeviceToHost (dst src : ptr) (size : Z) (st : state) : state :=
  {| host := copy (host st) (gmem (device st)) dst src (size / sizeof_float);
     device := device st;
     live := live st; capacity := capacity st; launch_ok := launch_ok st;
     events := events st |}.

(** Modelled from the spec: [launch(kernelId, gridDims, blockDims, args...)].
    A launch that cannot be scheduled runs nothing. *)
Definition cudaLaunch (k : kernel) (dimGrid dimBlock : dim3) (A B C : Matrix)
           (st : state) : state :=
  {| host := host st;
     device := if launch_ok st
               then snd (launch k dimGrid dimBlock A B C (device st))
               else device st;
     live := live st; capacity := capacity st; launch_ok := launch_ok st;
     events := events st ++ [EvLaunch k dimGrid dimBlock] |}.

(** [size_t size = M.width * M.height * sizeof(float);] *)
Definition byte_size (M : Matrix) : Z :=
  to_size (to_size (imul (width M) (height M)) * sizeof_float).

(** The values the locals [d_A.elements], [d_B.elements] and [d_C.elements]
    hold before [cudaMalloc] assigns them: [Matrix d_A;] initialises nothing. *)
Record uninitialised : Type := { junk_A : ptr; junk_B : ptr; junk_C : ptr }.

(** *** [MatMul] (lines 35-70) *)
Definition MatMul (A B C : Matrix) (general : bool) (u : uninitialised)
           (st : state) : state :=
  (* Load A and B to device memory *)
  let size := byte_size A in
  let (pA, st) := cudaMalloc (junk_A u) size st in
  let d_A := {| width := width A; height := height A; stride := width A;
                elements := pA |} in
  let st := cudaMemcpyHostToDevice (elements d_A) (elements A) size st in
  let size := byte_size B in
  let (pB, st) := cudaMalloc (junk_B u) size st in
  let d_B := {| width := width B; height := height B; stride := width B;
                elements := pB |} in
  let st := cudaMemcpyHostToDevice (elements d_B) (elements B) size st in
  (* Allocate C in device memory *)
  let size := byte_size C in
  let (pC, st) := cudaMalloc (junk_C u) size st in
  let d_C := {| width := width C; height := height C; stride := width C;
                elements := pC |} in
  (* Invoke kernel *)
  let dimBlock := {| dim_x := BLOCK_SIZE; dim_y := BLOCK_SIZE |} in
  let dimGrid := {| dim_x := udiv (width B) (dim_x dimBlock);
                    dim_y := udiv (height A) (dim_y dimBlock) |} in
  let st := if general
            then cudaLaunch KernelGeneral dimGrid dimBlock d_A d_B d_C st
            else cudaLaunch KernelPartitioned dimGrid dimBlock d_A d_B d_C st in
  (* Read C from device memory *)
  let st := cudaMemcpyDeviceToHost (elements C) (elements d_C) size st in
  (* Free device memory *)
  let st := cudaFree (elements d_A) st in
  let st := cudaFree (elements d_B) st in
  cudaFree (elements d_C) st.


End Host.

Arguments state : clear implicits.

(** ** Worked data *)

(** The binary32 value of a non-negative integer below [2^24]. *)
Definition b32_of_Z (z : Z) : spec_float :=
  match z with
  | Zpos p => binary_normalize 24 128 (Zpos p) 0 false
  | _ => S754_zero false
  end.

Definition buffer (b : Z) : ptr := {| blk := b; off := 0 |}.

(** Three full [BLOCK_SIZE] x [BLOCK_SIZE] matrices in the buffers 1, 2, 3. *)
Definition mA : Matrix := {| width := 16; height := 16; stride := 16; elements := buffer 1 |}.
Definition mB : Matrix := {| width := 16; height := 16; stride := 16; elements := buffer 2 |}.
Definition mC : Matrix := {| width := 16; height := 16; stride := 16; elements := buffer 3 |}.

(** [A] has 40 columns, [B] 40 rows: two whole tiles and a partial one. *)
Definition wA : Matrix := {| width := 40; height := 16; stride := 40; elements := buffer 1 |}.
Definition wB : Matrix := {| width := 16; height := 40; stride := 16; elements := buffer 2 |}.

(** A view of 16 columns in rows 32 elements apart, and one of 32 by 32. *)
Definition pA : Matrix := {| width := 16; height := 16; stride := 32; elements := buffer 1 |}.
Definition bigA : Matrix := {| width := 32; height := 32; stride := 32; elements := buffer 1 |}.

(** All ones in buffer 1, the row index in buffer 2, sevens elsewhere. *)
Definition ones_rows : memory spec_float :=
  fun p => if blk p =? 1 then b32_of_Z 1
           else if blk p =? 2 then b32_of_Z (off p / 16)
           else b32_of_Z 7.

(** The same in buffers 1 and 2, nines elsewhere. *)
Definition ones_rows' : memory spec_float :=
  fun p => if blk p =? 1 then b32_of_Z 1
           else if blk p =? 2 then b32_of_Z (off p / 16)
           else b32_of_Z 9.

Definition dev0 : kstate spec_float :=
  {| gmem := ones_rows; shAs := fun _ _ => b32_of_Z 5; shBs := fun _ _ => b32_of_Z 5;
     trace := [] |}.

Definition dev1 : kstate spec_float :=
  {| gmem := ones_rows'; shAs := fun _ _ => b32_of_Z 3; shBs := fun _ _ => b32_of_Z 4;
     trace := [] |}.

Definition null_junk : uninitialised :=
  {| junk_A := buffer 0; junk_B := buffer 0; junk_C := buffer 0 |}.

(** An empty pool with room for the three buffers of one call. *)
Definition st0 : state spec_float :=
  {| host := ones_rows; device := dev0; live := []; capacity := 4096;
     launch_ok := true; events := [] |}.

(** Another buffer is held, other floats lie in [C] and on the accelerator. *)
Definition st1 : state spec_float :=
  {| host := ones_rows'; device := dev1; live := [(5, 64)]; capacity := 8192;
     launch_ok := true; events := [] |}.


(** Unset pointers the first of which holds the buffer 7. *)
Definition stale_junk : uninitialised :=
  {| junk_A := buffer 7; junk_B := buffer 0; junk_C := buffer 0 |}.

(** Three full matrices of two by two tiles. *)
Definition bigB : Matrix := {| width := 32; height := 32; stride := 32; elements := buffer 2 |}.
Definition bigC : Matrix := {| width := 32; height := 32; stride := 32; elements := buffer 3 |}.

(** As [st0], but no kernel can be scheduled. *)
Definition st_nolaunch : state spec_float :=
  {| host := ones_rows; device := dev0; live := []; capacity := 4096;
     launch_ok := false; events := [] |}.

(** An empty pool of 16 MiB. *)
Definition st_big : state spec_float :=
  {| host := ones_rows; device := dev0; live := []; capacity := 16777216;
     launch_ok := true; events := [] |}.

(** [A] without columns, [B] without rows, and a [C] without elements. *)
Definition eA : Matrix := {| width := 0; height := 16; stride := 0; elements := buffer 1 |}.
Definition eB : Matrix := {| width := 16; height := 0; stride := 16; elements := buffer 2 |}.
Definition eC : Matrix := {| width := 0; height := 0; stride := 0; elements := buffer 3 |}.


(** ** What the data model asks of the descriptors *)

Section Specification.
Context {F : Type} `{FloatOps F}.

(** A view: [width <= stride], the three fields are [int]s, and so is every
    element index [r * stride + c] of the view. *)
Definition view_ok (M : Matrix) : Prop :=
  0 <= width M <= stride M /\ 0 <= height M /\ stride M * height M <= INT_MAX
  /\ stride M <= INT_MAX /\ height M <= INT_MAX.

(** A full matrix has no padding. *)
Definition full_matrix (M : Matrix) : Prop := view_ok M /\ stride M = width M.

Definition multiple_of_BLOCK (z : Z) : Prop := z mod BLOCK_SIZE = 0.

(** The invariant the algorithm requires of [A], [B] and [C]. *)
Definition dimension_invariant (A B C : Matrix) : Prop :=
  full_matrix A /\ full_matrix B /\ full_matrix C
  /\ multiple_of_BLOCK (width A) /\ multiple_of_BLOCK (height A)
  /\ multiple_of_BLOCK (width B)
  /\ multiple_of_BLOCK (width C) /\ multiple_of_BLOCK (height C)
  /\ width A = height B /\ height A = height C /\ width B = width C.

(** The tile of the data model: [BLOCK_SIZE] x [BLOCK_SIZE], the stride of
    the parent, the data at [(blockRow * BLOCK_SIZE, blockCol * BLOCK_SIZE)]
    of the parent. *)
Definition Tile (M : Matrix) (blockRow blockCol : Z) : Matrix :=
  {| width := BLOCK_SIZE;
     height := BLOCK_SIZE;
     stride := stride M;
     elements := elem_addr M (blockRow * BLOCK_SIZE) (blockCol * BLOCK_SIZE) |}.

(** Element [(i, j)] of the product of the matrices that [A] and [B]
    describe in the memory [g], summed left to right. *)
Definition product_elem (g : memory F) (A B : Matrix) (i j : Z) : F :=
  sum_lr (fun e => fmul (g (elem_addr A i e)) (g (elem_addr B e j))) (width A).

(** The cells of a view. *)
Definition inside (M : Matrix) (i j : Z) : Prop :=
  0 <= i < height M /\ 0 <= j < width M.


(** An access that follows the layout rule: a read of an element of [A] or
    of [B], or a write of an element of [C], at [data[r * stride + c]]. *)
Definition layout_access (A B C : Matrix) (a : access) : Prop :=
  match a with
  | Rd p => (exists i e, inside A i e /\ p = elem_addr A i e)
            \/ (exists e j, inside B e j /\ p = elem_addr B e j)
  | Wr p => exists i j, inside C i j /\ p = elem_addr C i j
  end.

(** Where [MatMulKernelGeneral] looks for element [(r, c)]: rows are
    [width] elements apart. *)
Definition dense_addr (M : Matrix) (r c : Z) : ptr :=
  ptr_add (elements M) (r * width M + c).


(** A pointer whose release takes nothing from the pool [l]. *)
Definition harmless (l : list (Z * Z)) (p : ptr) : Prop :=
  off p <> 0 \/ ~ In (blk p) (map fst l).

(** The unset pointers of a call name no buffer of the pool [l]. *)
Definition junk_harmless (u : uninitialised) (l : list (Z * Z)) : Prop :=
  harmless l (junk_A u) /\ harmless l (junk_B u) /\ harmless l (junk_C u).

(** The kernels launched, oldest first. *)
Definition launched_kernels (evs : list event) : list kernel :=
  flat_map (fun e => match e with EvLaunch k _ _ => [k] | _ => [] end) evs.


(** The buffer of the full matrix [M] holds the address [q]. *)
Definition in_buffer (M : Matrix) (q : ptr) : Prop :=
  blk q = blk (elements M)
  /\ off (elements M) <= off q < off (elements M) + width M * height M.

End Specification.

(** ** Auxiliary definitions for the statements *)

Section Auxiliary.
Context {F : Type} `{FloatOps F}.

(** The [BLOCK_SIZE] x [BLOCK_SIZE] threads [MatMul] puts in a block. *)
Definition dimBlock16 : dim3 := {| dim_x := BLOCK_SIZE; dim_y := BLOCK_SIZE |}.

(** Every thread writes its own cell of a shared tile. *)
Definition fill (f : Z -> Z -> F) (l : list dim3) (t0 : tile F) : tile F :=
  fold_left (fun t d => upd2 t (dim_y d) (dim_x d) (f (dim_y d) (dim_x d))) l t0.

(** Every thread updates its own register from its old value. *)
Definition remap (h : Z -> Z -> F -> F) (l : list dim3) (Cv : tile F) : tile F :=
  fold_left (fun Cv d => upd2 Cv (dim_y d) (dim_x d) (h (dim_y d) (dim_x d) (Cv (dim_y d) (dim_x d))))
            l Cv.

(** The products of one tile pair, added left to right to [v]. *)
Definition mac_value (a b : tile F) (row col : Z) (v : F) : F :=
  fold_left (fun acc e => fadd acc (fmul (a row e) (b e col))) (range BLOCK_SIZE) v.

(** The two reads of the thread [t] in iteration [m]. *)
Definition load_accesses (A B : Matrix) (blockRow blockCol m : Z) (t : dim3) : list access :=
  [Rd (int_elem_addr (Asub A blockRow m) (dim_y t) (dim_x t));
   Rd (int_elem_addr (Asub B m blockCol) (dim_y t) (dim_x t))].

Definition small_indices (l : list dim3) : Prop :=
  forall t, In t l -> to_int (dim_x t) = dim_x t /\ to_int (dim_y t) = dim_y t.

(** The product the thread [(row, col)] adds at step [e] of iteration [m]. *)
Definition Partitioned_term (g : memory F) (A B : Matrix)
           (blockRow blockCol row col m e : Z) : F :=
  fmul (g (int_elem_addr (Asub A blockRow m) row e))
       (g (int_elem_addr (Asub B m blockCol) e col)).

(** [Cvalue] of the thread [(row, col)] after the iterations [ms], from [v]. *)
Definition Partitioned_Cvalue (g : memory F) (A B : Matrix)
           (blockRow blockCol row col : Z) (ms : list Z) (v : F) : F :=
  fold_left
    (fun acc m =>
       fold_left (fun acc e => fadd acc (Partitioned_term g A B blockRow blockCol row col m e))
                 (range BLOCK_SIZE) acc)
    ms v.

Definition covers_block (l : list dim3) : Prop :=
  forall r c, 0 <= r < BLOCK_SIZE -> 0 <= c < BLOCK_SIZE ->
              In {| dim_x := c; dim_y := r |} l.

(** The cells written by the threads of a block, one after the other. *)
Definition write_all (addr : dim3 -> ptr) (val : dim3 -> F) (l : list dim3)
           (g : memory F) : memory F :=
  fold_left (fun g t => upd g (addr t) (val t)) l g.

(** The memory outside the buffer of [C] is the memory [g0]. *)
Definition same_off (C : Matrix) (g0 : memory F) (s : kstate F) : Prop :=
  forall p, blk p <> blk (elements C) -> gmem s p = g0 p.

Definition cell (C : Matrix) (s : kstate F) (i j : Z) : F := gmem s (elem_addr C i j).

(** The cells of [C] that belong to the block [b], and to its thread [t]. *)
Definition block_owns (b : dim3) (i j : Z) : Prop :=
  dim_y b * BLOCK_SIZE <= i < dim_y b * BLOCK_SIZE + BLOCK_SIZE
  /\ dim_x b * BLOCK_SIZE <= j < dim_x b * BLOCK_SIZE + BLOCK_SIZE.

Definition thread_owns (b t : dim3) (i j : Z) : Prop :=
  i = dim_y b * BLOCK_SIZE + dim_y t /\ j = dim_x b * BLOCK_SIZE + dim_x t.

(** The grid [MatMul] launches. *)
Definition dimGrid_of (A B : Matrix) : dim3 :=
  {| dim_x := width B / BLOCK_SIZE; dim_y := height A / BLOCK_SIZE |}.

Definition released (p : ptr) (hb : Z * Z) : bool := (off p =? 0) && (fst hb =? blk p).

(** The three allocations of one call fit in the pool. *)
Definition fits (A B C : Matrix) (l : list (Z * Z)) (cap : Z) : Prop :=
  used l + byte_size A + byte_size B + byte_size C <= cap.

(** The descriptor [d_M] that [MatMul] builds for the buffer of handle [h]. *)
Definition dev_matrix (M : Matrix) (h : Z) : Matrix :=
  {| width := width M; height := height M; stride := width M;
     elements := {| blk := h; off := 0 |} |}.

Definition kernel_of (general : bool) : kernel :=
  if general then KernelGeneral else KernelPartitioned.

Definition dimGrid_host (A B : Matrix) : dim3 :=
  {| dim_x := udiv (width B) BLOCK_SIZE; dim_y := udiv (height A) BLOCK_SIZE |}.

(** The accelerator state once [A] and [B] are copied in. *)
Definition staged (A B : Matrix) (st : state F) : kstate F :=
  let h := fresh (live st) in
  {| gmem := copy (copy (gmem (device st)) (host st)
                        {| blk := h; off := 0 |} (elements A) (byte_size A / sizeof_float))
                  (host st)
                  {| blk := h + 1; off := 0 |} (elements B) (byte_size B / sizeof_float);
     shAs := shAs (device st); shBs := shBs (device st);
     trace := trace (device st) |}.

(** The accelerator state after the launch. *)
Definition launched (A B C : Matrix) (general : bool) (st : state F) : kstate F :=
  let h := fresh (live st) in
  if launch_ok st
  then snd (launch (kernel_of general) (dimGrid_host A B) dimBlock16
                   (dev_matrix A h) (dev_matrix B (h + 1)) (dev_matrix C (h + 2))
                   (staged A B st))
  else staged A B st.


(** The blocks of a launch run one after the other in the order [blocks];
    [launch] is the case [blocks = dim3_indices dimGrid]. *)
Definition launch_blocks (k : kernel) (blocks : list dim3) (dimBlock : dim3)
           (A B C : Matrix) : K F unit :=
  match k with
  | KernelGeneral =>
      each_K (fun b => each_K (MatMulKernelGeneral A B C b dimBlock)
                              (dim3_indices dimBlock))
             blocks
  | KernelPartitioned =>
      each_K (fun b => MatMulKernelPartitioned A B C b dimBlock) blocks
  end.

(** The number of reads, and of writes, among accesses. *)
Definition count_reads (tr : list access) : Z :=
  Z.of_nat (length (filter (fun a => match a with Rd _ => true | Wr _ => false end) tr)).

Definition count_writes (tr : list access) : Z :=
  Z.of_nat (length (filter (fun a => match a with Rd _ => false | Wr _ => true end) tr)).

(** The descriptor [M] read the way [MatMul] reads it: [MatMul] takes the
    width for the stride of the buffers it stages. *)
Definition dense (M : Matrix) : Matrix :=
  {| width := width M; height := height M; stride := width M; elements := elements M |}.

(** [main], lines 155-165: three square matrices of side
    [sz = 64 * BLOCK_SIZE] in arrays of their own; [main] never sets the
    field [stride], which holds whatever the stack held. *)
Definition main_sz : Z := 64 * BLOCK_SIZE.

Definition main_matrix (array : Z) (unset_stride : Z) : Matrix :=
  {| width := main_sz; height := main_sz; stride := unset_stride;
     elements := {| blk := array; off := 0 |} |}.

(** [main], lines 182 and 184: [MatMul(a, b, c, true); MatMul(a, b, c, false);] *)
Definition main_multiplications (a b c : Matrix) (u1 u2 : uninitialised)
           (st : state F) : state F :=
  MatMul a b c false u2 (MatMul a b c true u1 st).







End Auxiliary.

(** * Properties *)

(** ** Integers, ranges and loops *)

Lemma to_int_small (z : Z) : INT_MIN <= z <= INT_MAX -> to_int z = z.
Proof.
  unfold INT_MIN, INT_MAX, to_int; intros Hz.
  rewrite Z.mod_small by lia. lia.
Qed.

Lemma to_int_congr (a b k : Z) : a = b + k * 4294967296 -> to_int a = to_int b.
Proof.
  intros ->. unfold to_int.
  replace (b + k * 4294967296 + 2147483648) with (b + 2147483648 + k * 4294967296) by lia.
  now rewrite Z.mod_add by lia.
Qed.

Lemma to_int_decomp (a : Z) : exists k, to_int a = a + k * 4294967296.
Proof.
  exists (- ((a + 2147483648) / 4294967296)). unfold to_int.
  pose proof (Z.div_mod (a + 2147483648) 4294967296 ltac:(lia)). lia.
Qed.

Lemma to_int_to_uint (z : Z) : to_int (to_uint z) = to_int z.
Proof.
  unfold to_uint. apply to_int_congr with (k := - (z / 4294967296)).
  pose proof (Z.div_mod z 4294967296 ltac:(lia)). lia.
Qed.

Lemma imul_to_int_l (a b : Z) : imul (to_int a) b = imul a b.
Proof.
  unfold imul. destruct (to_int_decomp a) as [k ->].
  apply to_int_congr with (k := k * b). lia.
Qed.

Lemma imul_to_int_r (a b : Z) : imul a (to_int b) = imul a b.
Proof.
  unfold imul. destruct (to_int_decomp b) as [k ->].
  apply to_int_congr with (k := a * k). lia.
Qed.

Lemma iadd_to_int_l (a b : Z) : iadd (to_int a) b = iadd a b.
Proof.
  unfold iadd. destruct (to_int_decomp a) as [k ->].
  apply to_int_congr with (k := k). lia.
Qed.

Lemma iadd_to_int_r (a b : Z) : iadd a (to_int b) = iadd a b.
Proof.
  unfold iadd. destruct (to_int_decomp b) as [k ->].
  apply to_int_congr with (k := k). lia.
Qed.

(** An [int] expression built from products and sums is the wrapped value of
    the same expression over the integers. *)
Lemma imul3_exact (a b c : Z) : imul (imul a b) c = to_int (a * b * c).
Proof. unfold imul at 2. now rewrite imul_to_int_l. Qed.

Lemma tile_index_exact (s r c : Z) :
  iadd (imul (imul s BLOCK_SIZE) r) (imul BLOCK_SIZE c)
  = to_int (s * BLOCK_SIZE * r + BLOCK_SIZE * c).
Proof.
  rewrite imul3_exact. unfold imul.
  now rewrite iadd_to_int_l, iadd_to_int_r.
Qed.

Lemma elem_index_exact (r s c : Z) : iadd (imul r s) c = to_int (r * s + c).
Proof. unfold imul. now rewrite iadd_to_int_l. Qed.

Lemma idiv_nonneg (a : Z) :
  0 <= a <= INT_MAX -> idiv a BLOCK_SIZE = a / BLOCK_SIZE.
Proof.
  intros Ha. unfold idiv, BLOCK_SIZE in *. rewrite Z.quot_div_nonneg by lia.
  apply to_int_small. unfold INT_MIN, INT_MAX in *.
  pose proof (Z.div_pos a 16 ltac:(lia) ltac:(lia)).
  pose proof (Z.div_le_upper_bound a 16 2147483647 ltac:(lia) ltac:(lia)). lia.
Qed.

Lemma udiv_nonneg (a : Z) :
  0 <= a <= INT_MAX -> udiv a BLOCK_SIZE = a / BLOCK_SIZE.
Proof.
  intros Ha. unfold udiv, to_uint, BLOCK_SIZE, INT_MAX in *.
  rewrite !Z.mod_small by lia. reflexivity.
Qed.

Lemma in_range (n e : Z) : In e (range n) <-> 0 <= e < n.
Proof.
  unfold range. rewrite in_map_iff. split.
  - intros (k & <- & Hk). apply in_seq in Hk. lia.
  - intros He. exists (Z.to_nat e). split; [lia | apply in_seq; lia].
Qed.

Lemma range_nonpos (n : Z) : n <= 0 -> range n = [].
Proof. intros Hn. unfold range. now replace (Z.to_nat n) with 0%nat by lia. Qed.

Lemma range_succ (n : Z) : 0 <= n -> range (n + 1) = range n ++ [n].
Proof.
  intros Hn. unfold range.
  replace (Z.to_nat (n + 1)) with (Z.to_nat n + 1)%nat by lia.
  rewrite seq_app, map_app. simpl. now rewrite Z2Nat.id by lia.
Qed.

Lemma length_range (n : Z) : 0 <= n -> Z.of_nat (length (range n)) = n.
Proof. intros Hn. unfold range. rewrite length_map, length_seq. lia. Qed.

Lemma NoDup_range (n : Z) : NoDup (range n).
Proof.
  unfold range. apply Injective_map_NoDup.
  - intros a b Hab. lia.
  - apply seq_NoDup.
Qed.

Lemma range_cons (n : Z) :
  0 < n -> range n = 0 :: map (fun i => i + 1) (range (n - 1)).
Proof.
  intros Hn. unfold range.
  replace (Z.to_nat n) with (Datatypes.S (Z.to_nat (n - 1))) by lia.
  rewrite <- cons_seq, <- seq_shift. simpl. f_equal.
  rewrite !map_map. apply map_ext. intros i. lia.
Qed.

Lemma for_fuel_fold (S : Type) (body : Z -> S -> S) (bound : Z) :
  forall (fuel : nat) (e : Z) (s : S),
    fuel = Z.to_nat (bound - e) ->
    for_fuel fuel e bound body s
    = (Z.max e bound,
       fold_left (fun s i => body i s) (map (fun i => e + i) (range (bound - e))) s).
Proof.
  induction fuel as [|k IH]; intros e s Hk.
  - simpl. rewrite range_nonpos by lia. simpl. f_equal. lia.
  - simpl. destruct (Z.ltb_spec e bound) as [Hlt|Hge]; [|lia].
    rewrite IH by lia. f_equal; [lia|].
    rewrite (range_cons (n := bound - e)) by lia. simpl.
    rewrite Z.add_0_r. f_equal.
    replace (bound - e - 1) with (bound - (e + 1)) by lia.
    rewrite map_map. apply map_ext. intros i. lia.
Qed.

(** The loop always runs to its bound: it is the fold of its body over
    [0 .. bound-1], and the counter ends at the bound. *)
Lemma for_int_fold (S : Type) (body : Z -> S -> S) (bound : Z) (s : S) :
  for_int bound body s
  = (Z.max 0 bound, fold_left (fun s i => body i s) (range bound) s).
Proof.
  unfold for_int. rewrite for_fuel_fold by (f_equal; lia).
  rewrite Z.sub_0_r. f_equal. f_equal.
  rewrite <- (map_id (range bound)) at 2. apply map_ext. intros; lia.
Qed.

Lemma fold_left_invariant (S T : Type) (P : S -> Prop) (f : S -> T -> S) :
  forall (l : list T) (s : S),
    (forall t s, In t l -> P s -> P (f s t)) -> P s -> P (fold_left f l s).
Proof.
  induction l as [|t l IH]; intros s Hstep Hs; simpl; auto.
  apply IH; [intros; apply Hstep; simpl; auto | apply Hstep; simpl; auto].
Qed.

Lemma flat_map_in_ext (T U : Type) (f g : T -> list U) (l : list T) :
  (forall t, In t l -> f t = g t) -> flat_map f l = flat_map g l.
Proof.
  induction l as [|t l IH]; intros Hfg; simpl; [reflexivity|].
  rewrite Hfg by now left. f_equal. apply IH. intros; apply Hfg; now right.
Qed.

Lemma fold_left_ext_in (S T : Type) (f g : S -> T -> S) :
  forall (l : list T) (s : S),
    (forall t s, In t l -> f s t = g s t) -> fold_left f l s = fold_left g l s.
Proof.
  induction l as [|t l IH]; intros s Hfg; simpl; auto.
  rewrite Hfg by (simpl; auto). apply IH. intros; apply Hfg; simpl; auto.
Qed.

Section Proofs.
Context {F : Type} `{FloatOps F}.
Local Open Scope kernel_scope.

(** ** The device monad *)

Lemma fold_K_fold (T X : Type) (f : X -> T -> K F X) :
  forall (l : list T) (v : X) (s : kstate F),
    fold_K f l v s = fold_left (fun vs t => f (fst vs) t (snd vs)) l (v, s).
Proof.
  induction l as [|t l IH]; intros v s; simpl; [reflexivity|].
  unfold bind. destruct (f v t s) as [v' s']. apply IH.
Qed.

Lemma each_K_fold (T : Type) (f : T -> K F unit) :
  forall (l : list T) (s : kstate F),
    each_K f l s = (tt, fold_left (fun s t => snd (f t s)) l s).
Proof.
  unfold each_K. induction l as [|t l IH]; intros s; simpl; [reflexivity|].
  unfold bind. destruct (f t s) as [[] s']. simpl. apply IH.
Qed.

Lemma for_K_fold (X : Type) (bound : Z) (body : Z -> X -> K F X) (v : X) (s : kstate F) :
  for_K bound body v s
  = ((Z.max 0 bound,
      fst (fold_left (fun vs e => body e (fst vs) (snd vs)) (range bound) (v, s))),
     snd (fold_left (fun vs e => body e (fst vs) (snd vs)) (range bound) (v, s))).
Proof.
  unfold for_K. rewrite for_int_fold.
  destruct (fold_left _ (range bound) (v, s)) as [v' s']. reflexivity.
Qed.

(** ** The direct kernel, one thread *)

Lemma General_loop (g : memory F) (a b : tile F) (A B : Matrix) (row col : Z) :
  forall (l : list Z) (acc : F) (tr : list access),
    fold_left
      (fun (vs : F * kstate F) e =>
         (x <- load (elements A) (iadd (imul row (width A)) e) ;;
          y <- load (elements B) (iadd (imul e (width B)) col) ;;
          ret (fadd (fst vs) (fmul x y))) (snd vs))
      l (acc, {| gmem := g; shAs := a; shBs := b; trace := tr |})
    = (fold_left
         (fun acc e =>
            fadd acc (fmul (g (ptr_add (elements A) (iadd (imul row (width A)) e)))
                           (g (ptr_add (elements B) (iadd (imul e (width B)) col)))))
         l acc,
       {| gmem := g; shAs := a; shBs := b;
          trace := tr ++ flat_map
                     (fun e => [Rd (ptr_add (elements A) (iadd (imul row (width A)) e));
                                Rd (ptr_add (elements B) (iadd (imul e (width B)) col))])
                     l |}).
Proof.
  induction l as [|e l IH]; intros acc tr; simpl.
  - now rewrite app_nil_r.
  - unfold bind, load, ret; simpl. rewrite IH. simpl.
    now rewrite <- !app_assoc.
Qed.

Lemma General_run (A B C : Matrix) (bi bd ti : dim3)
      (g : memory F) (a b : tile F) (tr : list access) :
  let row := to_int (dim_y bi * dim_y bd + dim_y ti) in
  let col := to_int (dim_x bi * dim_x bd + dim_x ti) in
  MatMulKernelGeneral A B C bi bd ti {| gmem := g; shAs := a; shBs := b; trace := tr |}
  = (tt,
     {| gmem := upd g (ptr_add (elements C) (iadd (imul row (width C)) col))
                    (fold_left
                       (fun acc e =>
                          fadd acc
                               (fmul (g (ptr_add (elements A) (iadd (imul row (width A)) e)))
                                     (g (ptr_add (elements B) (iadd (imul e (width B)) col)))))
                       (range (width A)) fzero);
        shAs := a; shBs := b;
        trace := tr ++ flat_map
                   (fun e => [Rd (ptr_add (elements A) (iadd (imul row (width A)) e));
                              Rd (ptr_add (elements B) (iadd (imul e (width B)) col))])
                   (range (width A))
                 ++ [Wr (ptr_add (elements C) (iadd (imul row (width C)) col))] |}).
Proof.
  intros row col. unfold MatMulKernelGeneral.
  rewrite !to_int_to_uint. fold row col.
  unfold bind at 1. rewrite for_K_fold, General_loop. simpl.
  unfold store. simpl. now rewrite <- app_assoc.
Qed.


(** ** Threads of a block, blocks of a grid *)

Lemma in_dim3_indices (d t : dim3) :
  In t (dim3_indices d) <-> 0 <= dim_x t < dim_x d /\ 0 <= dim_y t < dim_y d.
Proof.
  unfold dim3_indices. rewrite in_flat_map. split.
  - intros (j & Hj & Ht). apply in_map_iff in Ht as (i & <- & Hi).
    apply in_range in Hj, Hi. simpl. lia.
  - intros [Hx Hy]. exists (dim_y t). split; [now apply in_range|].
    apply in_map_iff. exists (dim_x t). split; [now destruct t | now apply in_range].
Qed.

Lemma NoDup_dim3_indices (d : dim3) : NoDup (dim3_indices d).
Proof.
  unfold dim3_indices.
  generalize (NoDup_range (dim_y d)). generalize (range (dim_y d)) as l.
  induction l as [|j l IH]; intros Hl; simpl; [constructor|].
  inversion Hl as [|? ? Hj Hl']; subst.
  apply NoDup_app; auto.
  - apply Injective_map_NoDup; [|apply NoDup_range].
    intros a b Hab. now inversion Hab.
  - intros t Ht Ht'. apply in_map_iff in Ht as (i & <- & _).
    apply in_flat_map in Ht' as (j' & Hj' & Ht').
    apply in_map_iff in Ht' as (i' & Heq & _).
    inversion Heq; subst. contradiction.
Qed.

Lemma to_int_thread (d t : dim3) :
  dim_x d <= INT_MAX -> dim_y d <= INT_MAX -> In t (dim3_indices d) ->
  to_int (dim_x t) = dim_x t /\ to_int (dim_y t) = dim_y t.
Proof.
  intros Hx Hy Ht. apply in_dim3_indices in Ht.
  split; apply to_int_small; unfold INT_MIN, INT_MAX in *; lia.
Qed.

(** ** Tiles and registers filled by the threads of a block *)

Lemma upd2_same (t : tile F) (r c : Z) (v : F) : upd2 t r c v r c = v.
Proof. unfold upd2. now rewrite !Z.eqb_refl. Qed.

Lemma upd2_other (t : tile F) (r c r' c' : Z) (v : F) :
  (r', c') <> (r, c) -> upd2 t r c v r' c' = t r' c'.
Proof.
  intros Hne. unfold upd2.
  destruct (Z.eqb_spec r' r), (Z.eqb_spec c' c); simpl; congruence.
Qed.

Lemma fill_spec (f : Z -> Z -> F) :
  forall (l : list dim3) (t0 : tile F) (d : dim3),
    In d l -> fill f l t0 (dim_y d) (dim_x d) = f (dim_y d) (dim_x d).
Proof.
  unfold fill. induction l as [|d' l IH] using rev_ind; intros t0 d Hd; [easy|].
  rewrite fold_left_app. simpl.
  destruct (Z.eq_dec (dim_y d) (dim_y d')) as [Hy|Hy];
    [destruct (Z.eq_dec (dim_x d) (dim_x d')) as [Hx|Hx]|].
  - rewrite Hy, Hx. apply upd2_same.
  - rewrite upd2_other by congruence. apply IH.
    apply in_app_or in Hd as [Hd|[<-|[]]]; congruence.
  - rewrite upd2_other by congruence. apply IH.
    apply in_app_or in Hd as [Hd|[<-|[]]]; congruence.
Qed.

Lemma fill_at (f : Z -> Z -> F) (l : list dim3) (t0 : tile F) (r c : Z) :
  In {| dim_x := c; dim_y := r |} l -> fill f l t0 r c = f r c.
Proof. intros Hd. exact (@fill_spec f l t0 _ Hd). Qed.

Lemma remap_cons (h : Z -> Z -> F -> F) (d : dim3) (l : list dim3) (Cv : tile F) :
  remap h (d :: l) Cv
  = remap h l (upd2 Cv (dim_y d) (dim_x d) (h (dim_y d) (dim_x d) (Cv (dim_y d) (dim_x d)))).
Proof. reflexivity. Qed.

Lemma remap_notin (h : Z -> Z -> F -> F) :
  forall (l : list dim3) (Cv : tile F) (r c : Z),
    ~ In {| dim_x := c; dim_y := r |} l -> remap h l Cv r c = Cv r c.
Proof.
  induction l as [|d l IH]; intros Cv r c Hd; [reflexivity|].
  rewrite remap_cons, IH by (intros Hin; apply Hd; now right).
  apply upd2_other. intros Heq. apply Hd. left.
  destruct d; simpl in *. congruence.
Qed.

Lemma remap_spec (h : Z -> Z -> F -> F) :
  forall (l : list dim3) (Cv : tile F) (d : dim3),
    NoDup l -> In d l ->
    remap h l Cv (dim_y d) (dim_x d) = h (dim_y d) (dim_x d) (Cv (dim_y d) (dim_x d)).
Proof.
  induction l as [|d' l IH]; intros Cv d Hnd Hd; [easy|].
  inversion Hnd as [|? ? Hnotin Hnd']; subst.
  rewrite remap_cons. destruct Hd as [->|Hd].
  - rewrite remap_notin by (now destruct d). apply upd2_same.
  - rewrite IH by assumption.
    f_equal. apply upd2_other. intros Heq. apply Hnotin.
    destruct d, d'; simpl in *. congruence.
Qed.


Lemma remap_at (h : Z -> Z -> F -> F) (l : list dim3) (Cv : tile F) (r c : Z) :
  NoDup l -> In {| dim_x := c; dim_y := r |} l ->
  remap h l Cv r c = h r c (Cv r c).
Proof. intros Hnd Hd. exact (@remap_spec h l Cv _ Hnd Hd). Qed.

(** ** The tiled kernel, phase by phase *)

Lemma small_indices_cons (t : dim3) (l : list dim3) :
  small_indices (t :: l) ->
  to_int (dim_x t) = dim_x t /\ to_int (dim_y t) = dim_y t /\ small_indices l.
Proof.
  intros Hs. destruct (Hs t (or_introl eq_refl)) as [Hx Hy].
  split; [exact Hx|]. split; [exact Hy|].
  intros t' Ht'. apply Hs. now right.
Qed.

Lemma load_run (A B : Matrix) (blockRow blockCol m row col : Z)
      (g : memory F) (a b : tile F) (tr : list access) :
  Partitioned_load A B blockRow blockCol m row col
                   {| gmem := g; shAs := a; shBs := b; trace := tr |}
  = (tt,
     {| gmem := g;
        shAs := upd2 a row col (g (int_elem_addr (Asub A blockRow m) row col));
        shBs := upd2 b row col (g (int_elem_addr (Asub B m blockCol) row col));
        trace := tr ++ [Rd (int_elem_addr (Asub A blockRow m) row col);
                        Rd (int_elem_addr (Asub B m blockCol) row col)] |}).
Proof.
  unfold Partitioned_load, GetSubMatrix, bind, ret, load, set_As, set_Bs,
    int_elem_addr; simpl.
  now rewrite <- app_assoc.
Qed.

Lemma load_phase_run (A B : Matrix) (blockRow blockCol m : Z) :
  forall (l : list dim3) (g : memory F) (a b : tile F) (tr : list access),
    small_indices l ->
    each_K (fun t => Partitioned_load A B blockRow blockCol m
                       (to_int (dim_y t)) (to_int (dim_x t))) l
           {| gmem := g; shAs := a; shBs := b; trace := tr |}
    = (tt,
       {| gmem := g;
          shAs := fill (fun r c => g (int_elem_addr (Asub A blockRow m) r c)) l a;
          shBs := fill (fun r c => g (int_elem_addr (Asub B m blockCol) r c)) l b;
          trace := tr ++ flat_map (load_accesses A B blockRow blockCol m) l |}).
Proof.
  intros l g a b tr Hl. rewrite each_K_fold. f_equal.
  revert a b tr Hl. induction l as [|t l IH]; intros a b tr Hl; cbn [fold_left].
  - simpl. now rewrite app_nil_r.
  - apply small_indices_cons in Hl as (Hx & Hy & Hl).
    rewrite Hx, Hy, load_run. cbn [snd].
    rewrite IH by assumption. unfold fill. cbn [fold_left flat_map load_accesses].
    now rewrite <- !app_assoc.
Qed.

Lemma mac_run (row col : Z) (v : F) (s : kstate F) :
  Partitioned_mac row col v s = (mac_value (shAs s) (shBs s) row col v, s).
Proof.
  unfold Partitioned_mac, bind. rewrite for_K_fold. unfold ret, mac_value.
  generalize (range BLOCK_SIZE) as l. intros l. revert v.
  induction l as [|e l IH]; intros v; cbn [fold_left fst snd]; [reflexivity|].
  rewrite <- IH. reflexivity.
Qed.

Lemma mac_phase_run :
  forall (l : list dim3) (Cv : tile F) (s : kstate F),
    small_indices l ->
    fold_K (fun (Cv : registers) t =>
              let row := to_int (dim_y t) in
              let col := to_int (dim_x t) in
              v <- Partitioned_mac row col (Cv row col) ;;
              ret (upd2 Cv row col v)) l Cv s
    = (remap (mac_value (shAs s) (shBs s)) l Cv, s).
Proof.
  induction l as [|t l IH]; intros Cv s Hl; simpl; [reflexivity|].
  apply small_indices_cons in Hl as (Hx & Hy & Hl).
  unfold bind at 1. rewrite Hx, Hy. unfold bind at 1. rewrite mac_run.
  unfold ret at 1. rewrite IH by assumption. reflexivity.
Qed.

Lemma iteration_run (A B : Matrix) (blockRow blockCol m : Z) (l : list dim3)
      (Cv : tile F) (g : memory F) (a b : tile F) (tr : list access) :
  small_indices l ->
  Partitioned_iteration A B blockRow blockCol l m Cv
                        {| gmem := g; shAs := a; shBs := b; trace := tr |}
  = (remap (mac_value
              (fill (fun r c => g (int_elem_addr (Asub A blockRow m) r c)) l a)
              (fill (fun r c => g (int_elem_addr (Asub B m blockCol) r c)) l b)) l Cv,
     {| gmem := g;
        shAs := fill (fun r c => g (int_elem_addr (Asub A blockRow m) r c)) l a;
        shBs := fill (fun r c => g (int_elem_addr (Asub B m blockCol) r c)) l b;
        trace := tr ++ flat_map (load_accesses A B blockRow blockCol m) l |}).
Proof.
  intros Hl. unfold Partitioned_iteration, bind.
  rewrite load_phase_run by assumption. now rewrite mac_phase_run.
Qed.



Lemma small_indices_block : small_indices (dim3_indices dimBlock16).
Proof.
  intros t Ht. apply to_int_thread with (d := dimBlock16); auto;
    unfold INT_MAX, BLOCK_SIZE; simpl; unfold BLOCK_SIZE; lia.
Qed.

Lemma in_block (r c : Z) :
  0 <= r < BLOCK_SIZE -> 0 <= c < BLOCK_SIZE ->
  In {| dim_x := c; dim_y := r |} (dim3_indices dimBlock16).
Proof. intros Hr Hc. apply in_dim3_indices. simpl. lia. Qed.

Lemma mac_value_filled (g : memory F) (A B : Matrix) (blockRow blockCol m : Z)
      (l : list dim3) (a b : tile F) (row col : Z) (v : F) :
  covers_block l ->
  0 <= row < BLOCK_SIZE -> 0 <= col < BLOCK_SIZE ->
  mac_value
    (fill (fun r c => g (int_elem_addr (Asub A blockRow m) r c)) l a)
    (fill (fun r c => g (int_elem_addr (Asub B m blockCol) r c)) l b)
    row col v
  = fold_left (fun acc e => fadd acc (Partitioned_term g A B blockRow blockCol row col m e))
              (range BLOCK_SIZE) v.
Proof.
  intros Hl Hrow Hcol. unfold mac_value. apply fold_left_ext_in.
  intros e acc He. apply in_range in He. unfold Partitioned_term.
  rewrite !fill_at by (apply Hl; assumption). reflexivity.
Qed.

Lemma loop_fold_run (A B : Matrix) (blockRow blockCol : Z) (l : list dim3) :
  small_indices l -> NoDup l -> covers_block l ->
  forall (ms : list Z) (Cv : tile F) (g : memory F) (a b : tile F) (tr : list access),
    let r := fold_left
               (fun (vs : registers * kstate F) m =>
                  Partitioned_iteration A B blockRow blockCol l m (fst vs) (snd vs))
               ms (Cv, {| gmem := g; shAs := a; shBs := b; trace := tr |}) in
    gmem (snd r) = g
    /\ trace (snd r)
       = tr ++ flat_map (fun m => flat_map (load_accesses A B blockRow blockCol m) l) ms
    /\ forall row col,
        0 <= row < BLOCK_SIZE -> 0 <= col < BLOCK_SIZE ->
        fst r row col = Partitioned_Cvalue g A B blockRow blockCol row col ms (Cv row col).
Proof.
  intros Hsmall Hnd Hcov.
  induction ms as [|m ms IH]; intros Cv g a b tr; cbv zeta; cbn [fold_left fst snd].
  - cbn [gmem trace flat_map Partitioned_Cvalue fold_left]. rewrite app_nil_r. auto.
  - rewrite iteration_run by assumption.
    match goal with
    | |- context [fold_left _ ms (?Cv1, {| gmem := _; shAs := ?a1; shBs := ?b1; trace := ?tr1 |})] =>
        specialize (IH Cv1 g a1 b1 tr1)
    end.
    cbv zeta in IH. destruct IH as (Hg & Htr & Hv).
    split; [exact Hg|]. split.
    + rewrite Htr. cbn [flat_map]. now rewrite <- app_assoc.
    + intros row col Hrow Hcol. rewrite Hv by assumption.
      unfold Partitioned_Cvalue. cbn [fold_left]. f_equal.
      rewrite remap_at by (try assumption; apply Hcov; assumption).
      now apply mac_value_filled.
Qed.

Lemma Partitioned_loop_run (A B : Matrix) (bi : dim3)
      (g : memory F) (a b : tile F) (tr : list access) :
  let r := Partitioned_loop A B bi dimBlock16
                            {| gmem := g; shAs := a; shBs := b; trace := tr |} in
  let blockRow := to_int (dim_y bi) in
  let blockCol := to_int (dim_x bi) in
  let ms := range (idiv (width A) BLOCK_SIZE) in
  fst (fst r) = Z.max 0 (idiv (width A) BLOCK_SIZE)
  /\ gmem (snd r) = g
  /\ trace (snd r)
     = tr ++ flat_map (fun m => flat_map (load_accesses A B blockRow blockCol m)
                                         (dim3_indices dimBlock16)) ms
  /\ forall row col,
      0 <= row < BLOCK_SIZE -> 0 <= col < BLOCK_SIZE ->
      snd (fst r) row col = Partitioned_Cvalue g A B blockRow blockCol row col ms fzero.
Proof.
  unfold Partitioned_loop. rewrite for_K_fold. cbn [fst snd].
  split; [reflexivity|].
  apply loop_fold_run;
    [apply small_indices_block | apply NoDup_dim3_indices | exact in_block].
Qed.


(** ** Memory updates *)

Lemma ptr_eqb_eq (p q : ptr) : ptr_eqb p q = true <-> p = q.
Proof.
  unfold ptr_eqb. rewrite andb_true_iff, !Z.eqb_eq.
  destruct p, q; simpl. split; [intros [-> ->]; reflexivity | intros Heq; now inversion Heq].
Qed.

Lemma upd_same (g : memory F) (p : ptr) (v : F) : upd g p v p = v.
Proof.
  unfold upd. destruct (ptr_eqb p p) eqn:E; [reflexivity|].
  assert (ptr_eqb p p = true) by now apply ptr_eqb_eq. congruence.
Qed.

Lemma upd_other (g : memory F) (p q : ptr) (v : F) : q <> p -> upd g p v q = g q.
Proof.
  intros Hne. unfold upd. destruct (ptr_eqb q p) eqn:E; [|reflexivity].
  apply ptr_eqb_eq in E. contradiction.
Qed.

Lemma upd_other_blk (g : memory F) (p q : ptr) (v : F) :
  blk q <> blk p -> upd g p v q = g q.
Proof. intros Hne. apply upd_other. congruence. Qed.

Lemma write_all_notin (addr : dim3 -> ptr) (val : dim3 -> F) (p : ptr) :
  forall (l : list dim3) (g : memory F),
    (forall t, In t l -> addr t <> p) -> write_all addr val l g p = g p.
Proof.
  unfold write_all. induction l as [|t l IH]; intros g Hl; simpl; [reflexivity|].
  rewrite IH by (intros; apply Hl; now right).
  apply upd_other. intros Heq. apply (Hl t); [now left | now symmetry].
Qed.

Lemma write_all_in (addr : dim3 -> ptr) (val : dim3 -> F) :
  forall (l : list dim3) (g : memory F) (t : dim3),
    In t l ->
    (forall t', In t' l -> addr t' = addr t -> val t' = val t) ->
    write_all addr val l g (addr t) = val t.
Proof.
  unfold write_all. induction l as [|t' l IH] using rev_ind; intros g t Ht Hval; [easy|].
  rewrite fold_left_app. simpl.
  destruct (ptr_eqb (addr t) (addr t')) eqn:E.
  - apply ptr_eqb_eq in E. rewrite E, upd_same.
    apply Hval; [apply in_or_app; right; now left | now symmetry].
  - assert (Hne : addr t <> addr t').
    { intros Heq. apply ptr_eqb_eq in Heq. congruence. }
    rewrite upd_other by assumption. apply IH.
    + apply in_app_or in Ht as [Ht|[<-|[]]]; [assumption | contradiction].
    + intros t'' Ht'' Heq. apply Hval; [apply in_or_app; now left | assumption].
Qed.

Lemma write_all_ext (addr : dim3 -> ptr) (val val' : dim3 -> F) :
  forall (l : list dim3) (g : memory F),
    (forall t, In t l -> val t = val' t) ->
    write_all addr val l g = write_all addr val' l g.
Proof.
  intros l g Hval. unfold write_all. apply fold_left_ext_in.
  intros t g' Ht. now rewrite Hval.
Qed.

Lemma store_phase_run (Csub : Matrix) (Cv : tile F) :
  forall (l : list dim3) (g : memory F) (a b : tile F) (tr : list access),
    small_indices l ->
    each_K (fun t => let row := to_int (dim_y t) in
                     let col := to_int (dim_x t) in
                     Partitioned_store Csub row col (Cv row col)) l
           {| gmem := g; shAs := a; shBs := b; trace := tr |}
    = (tt,
       {| gmem := write_all (fun t => int_elem_addr Csub (dim_y t) (dim_x t))
                            (fun t => Cv (dim_y t) (dim_x t)) l g;
          shAs := a; shBs := b;
          trace := tr ++ map (fun t => Wr (int_elem_addr Csub (dim_y t) (dim_x t))) l |}).
Proof.
  intros l g a b tr Hl. rewrite each_K_fold. f_equal.
  revert g tr Hl. induction l as [|t l IH]; intros g tr Hl; cbn [fold_left].
  - simpl. now rewrite app_nil_r.
  - apply small_indices_cons in Hl as (Hx & Hy & Hl).
    cbv zeta. rewrite Hx, Hy. unfold Partitioned_store at 2, store. cbn [snd].
    rewrite IH by assumption. unfold write_all. cbn [fold_left map].
    now rewrite <- app_assoc.
Qed.

(** The whole block: the loop, then the write of [Csub]. *)
Lemma Partitioned_run (A B C : Matrix) (bi : dim3)
      (g : memory F) (a b : tile F) (tr : list access) :
  let s' := snd (MatMulKernelPartitioned A B C bi dimBlock16
                   {| gmem := g; shAs := a; shBs := b; trace := tr |}) in
  let blockRow := to_int (dim_y bi) in
  let blockCol := to_int (dim_x bi) in
  let ms := range (idiv (width A) BLOCK_SIZE) in
  let Csub := Asub C blockRow blockCol in
  gmem s' = write_all (fun t => int_elem_addr Csub (dim_y t) (dim_x t))
                      (fun t => Partitioned_Cvalue g A B blockRow blockCol
                                                   (dim_y t) (dim_x t) ms fzero)
                      (dim3_indices dimBlock16) g
  /\ trace s'
     = tr ++ flat_map (fun m => flat_map (load_accesses A B blockRow blockCol m)
                                         (dim3_indices dimBlock16)) ms
          ++ map (fun t => Wr (int_elem_addr Csub (dim_y t) (dim_x t)))
                 (dim3_indices dimBlock16).
Proof.
  cbv zeta. unfold MatMulKernelPartitioned, GetSubMatrix, bind, ret.
  pose proof (Partitioned_loop_run A B bi g a b tr) as Hloop. cbv zeta in Hloop.
  destruct (Partitioned_loop A B bi dimBlock16
              {| gmem := g; shAs := a; shBs := b; trace := tr |}) as [[m Cv] s1].
  cbn [fst snd] in Hloop. destruct Hloop as (_ & Hg & Htr & Hv).
  destruct s1 as [g1 a1 b1 tr1]. cbn [gmem trace] in Hg, Htr. subst g1 tr1.
  cbn [snd]. rewrite store_phase_run by apply small_indices_block. cbn [snd gmem trace].
  split.
  - apply write_all_ext. intros t Ht. apply in_dim3_indices in Ht.
    apply Hv; simpl in Ht; lia.
  - now rewrite <- app_assoc.
Qed.


(** ** Addresses *)

Lemma ptr_add_add (p : ptr) (i j : Z) : ptr_add (ptr_add p i) j = ptr_add p (i + j).
Proof. unfold ptr_add; simpl. f_equal. lia. Qed.

Lemma ptr_add_inj (p : ptr) (i j : Z) : ptr_add p i = ptr_add p j -> i = j.
Proof. unfold ptr_add. intros Heq. inversion Heq. lia. Qed.

Lemma elem_addr_inj (M : Matrix) (r c r' c' : Z) :
  0 <= c < stride M -> 0 <= c' < stride M ->
  elem_addr M r c = elem_addr M r' c' -> r = r' /\ c = c'.
Proof.
  intros Hc Hc' Heq. apply ptr_add_inj in Heq.
  assert (r = r') by nia. subst. lia.
Qed.

Lemma blk_elem_addr (M : Matrix) (r c : Z) : blk (elem_addr M r c) = blk (elements M).
Proof. reflexivity. Qed.

(** Inside a view whose indices are [int]s, the index arithmetic of
    [GetSubMatrix] does not wrap: the tile it returns is the tile of the
    data model. *)
Lemma Asub_Tile (M : Matrix) (blockRow blockCol : Z) :
  view_ok M ->
  0 <= blockRow -> 0 <= blockCol ->
  (blockRow + 1) * BLOCK_SIZE <= height M ->
  (blockCol + 1) * BLOCK_SIZE <= width M ->
  Asub M blockRow blockCol = Tile M blockRow blockCol.
Proof.
  unfold view_ok, BLOCK_SIZE, INT_MAX. intros (Hw & Hh & Hs & Hrange) Hr Hc Hrh Hcw.
  unfold Asub, Tile, elem_addr. f_equal. f_equal.
  rewrite tile_index_exact. unfold BLOCK_SIZE.
  rewrite to_int_small; [lia|]. unfold INT_MIN, INT_MAX. nia.
Qed.

Lemma int_elem_addr_Tile (M : Matrix) (blockRow blockCol r c : Z) :
  view_ok M ->
  0 <= blockRow -> 0 <= blockCol ->
  (blockRow + 1) * BLOCK_SIZE <= height M ->
  (blockCol + 1) * BLOCK_SIZE <= width M ->
  0 <= r < BLOCK_SIZE -> 0 <= c < BLOCK_SIZE ->
  int_elem_addr (Asub M blockRow blockCol) r c
  = elem_addr M (blockRow * BLOCK_SIZE + r) (blockCol * BLOCK_SIZE + c).
Proof.
  intros Hok Hbr Hbc Hrh Hcw Hr Hc. rewrite Asub_Tile by assumption.
  unfold view_ok, BLOCK_SIZE, INT_MAX in *. destruct Hok as (Hw & Hh & Hs & Hrange).
  unfold int_elem_addr, Tile, elem_addr. cbn [elements stride].
  rewrite elem_index_exact, ptr_add_add. f_equal.
  assert (16 * stride M <= stride M * height M) by nia.
  rewrite to_int_small; [unfold BLOCK_SIZE; lia|]. unfold INT_MIN, INT_MAX. nia.
Qed.

(** The index arithmetic of [MatMulKernelGeneral] on a full matrix. *)
Lemma General_addr (M : Matrix) (r c : Z) :
  full_matrix M -> 0 <= r < height M -> 0 <= c < width M ->
  ptr_add (elements M) (iadd (imul r (width M)) c) = elem_addr M r c.
Proof.
  unfold full_matrix, view_ok, INT_MAX. intros ((Hw & Hh & Hs & Hrange) & Hfull) Hr Hc.
  unfold elem_addr. rewrite elem_index_exact, Hfull. f_equal.
  apply to_int_small. unfold INT_MIN, INT_MAX. rewrite Hfull in *. nia.
Qed.


(** ** Work items that write disjoint cells of [C] *)

Section Writers.
Variables (X : Type) (step : X -> kstate F -> kstate F).
Variables (Inv : kstate F -> Prop) (get : kstate F -> Z -> Z -> F).
Variables (val : Z -> Z -> F) (dom : Z -> Z -> Prop).
Variables (owns : X -> Z -> Z -> Prop) (valid : X -> Prop).
Hypothesis owns_dec : forall x i j, owns x i j \/ ~ owns x i j.
Hypothesis step_inv : forall x s, valid x -> Inv s -> Inv (step x s).
Hypothesis step_own :
  forall x s i j, valid x -> Inv s -> dom i j -> owns x i j -> get (step x s) i j = val i j.
Hypothesis step_other :
  forall x s i j, valid x -> Inv s -> dom i j -> ~ owns x i j ->
                  get (step x s) i j = get s i j.

Lemma writers_fold :
  forall (l : list X) (s : kstate F),
    (forall x, In x l -> valid x) -> Inv s ->
    Inv (fold_left (fun s x => step x s) l s)
    /\ (forall i j, dom i j -> (exists x, In x l /\ owns x i j) ->
                    get (fold_left (fun s x => step x s) l s) i j = val i j)
    /\ (forall i j, dom i j -> (forall x, In x l -> ~ owns x i j) ->
                    get (fold_left (fun s x => step x s) l s) i j = get s i j).
Proof.
  induction l as [|x l IH] using rev_ind; intros s Hvalid Hs.
  - simpl. split; [assumption|]. split; [|reflexivity].
    intros i j _ (x & [] & _).
  - rewrite fold_left_app. cbn [fold_left].
    assert (Hx : valid x) by (apply Hvalid, in_or_app; right; now left).
    destruct (IH s) as (Hinv & Hown & Hother); [|assumption|].
    { intros x' Hx'. apply Hvalid, in_or_app. now left. }
    split; [now apply step_inv|]. split.
    + intros i j Hdom (x' & Hx' & Hox').
      destruct (owns_dec x i j) as [Ho|Hno]; [now apply step_own|].
      rewrite step_other by assumption. apply Hown; [assumption|].
      exists x'. split; [|assumption].
      apply in_app_or in Hx' as [Hx'|[<-|[]]]; [assumption | contradiction].
    + intros i j Hdom Hnone.
      rewrite step_other; [| assumption | assumption | assumption |].
      * apply Hother; [assumption|]. intros x' Hx'. apply Hnone, in_or_app. now left.
      * apply Hnone, in_or_app. right. now left.
Qed.

End Writers.

Lemma block_owns_dec (b : dim3) (i j : Z) : block_owns b i j \/ ~ block_owns b i j.
Proof. unfold block_owns. lia. Qed.

Lemma thread_owns_dec (b t : dim3) (i j : Z) : thread_owns b t i j \/ ~ thread_owns b t i j.
Proof. unfold thread_owns. lia. Qed.

Lemma product_elem_same_off (A B C : Matrix) (g0 : memory F) (s : kstate F) (i j : Z) :
  blk (elements A) <> blk (elements C) ->
  blk (elements B) <> blk (elements C) ->
  same_off C g0 s ->
  product_elem (gmem s) A B i j = product_elem g0 A B i j.
Proof.
  intros HA HB Hs. unfold product_elem, sum_lr. apply fold_left_ext_in.
  intros e acc _. now rewrite !Hs by (rewrite blk_elem_addr; assumption).
Qed.

Lemma multiple_div (z : Z) : multiple_of_BLOCK z -> z = BLOCK_SIZE * (z / BLOCK_SIZE).
Proof.
  unfold multiple_of_BLOCK, BLOCK_SIZE. intros Hz.
  pose proof (Z.div_mod z 16 ltac:(lia)). lia.
Qed.

(** A block of the grid lies inside the three matrices. *)
Lemma grid_block_inside (A B C : Matrix) (b : dim3) :
  dimension_invariant A B C -> In b (dim3_indices (dimGrid_of A B)) ->
  0 <= dim_x b /\ 0 <= dim_y b
  /\ (dim_y b + 1) * BLOCK_SIZE <= height A
  /\ (dim_x b + 1) * BLOCK_SIZE <= width B
  /\ dim_x b <= INT_MAX /\ dim_y b <= INT_MAX
  /\ height A <= INT_MAX /\ width B <= INT_MAX.
Proof.
  intros (HA & HB & HC & HwA & HhA & HwB & HwC & HhC & Hab & Hac & Hbc) Hb.
  apply in_dim3_indices in Hb. unfold dimGrid_of in Hb. cbn [dim_x dim_y] in Hb.
  apply multiple_div in HhA, HwB.
  destruct HC as ((HCw & HCh & HCs & HCi) & HCf).
  rewrite HCf, <- Hbc, <- Hac in HCs.
  unfold BLOCK_SIZE, INT_MAX in *.
  set (qh := height A / 16) in *. set (qw := width B / 16) in *.
  clearbody qh qw. rewrite HhA, HwB in *.
  assert (qw <= qw * qh) by nia. assert (qh <= qw * qh) by nia.
  repeat split; lia.
Qed.


(** ** The loop over the tiles is the loop over the contraction index *)

Lemma range_app (a b : Z) :
  0 <= a -> 0 <= b -> range (a + b) = range a ++ map (fun i => a + i) (range b).
Proof.
  intros Ha Hb. pattern b. apply natlike_ind; [| |assumption].
  - rewrite Z.add_0_r. simpl. now rewrite app_nil_r.
  - intros n Hn IH. unfold Z.succ.
    rewrite Z.add_assoc, !range_succ, IH, map_app by lia.
    now rewrite <- app_assoc.
Qed.

Lemma fold_left_map_in (S T U : Type) (f : S -> U -> S) (h : T -> U) :
  forall (l : list T) (s : S),
    fold_left f (map h l) s = fold_left (fun s t => f s (h t)) l s.
Proof. induction l as [|t l IH]; intros s; simpl; auto. Qed.

Lemma fold_blocks (phi : Z -> F) (k : Z) (v : F) :
  0 <= k ->
  fold_left
    (fun acc m =>
       fold_left (fun acc e => fadd acc (phi (m * BLOCK_SIZE + e))) (range BLOCK_SIZE) acc)
    (range k) v
  = fold_left (fun acc e => fadd acc (phi e)) (range (BLOCK_SIZE * k)) v.
Proof.
  intros Hk. pattern k. apply natlike_ind; [| |assumption].
  - reflexivity.
  - intros n Hn IH. unfold Z.succ. rewrite range_succ by assumption.
    rewrite fold_left_app, IH. cbn [fold_left].
    replace (BLOCK_SIZE * (n + 1)) with (BLOCK_SIZE * n + BLOCK_SIZE) by lia.
    rewrite range_app by (unfold BLOCK_SIZE; lia).
    rewrite fold_left_app, fold_left_map_in.
    apply fold_left_ext_in. intros e acc _. do 2 f_equal. lia.
Qed.

(** Without any assumption on the views: [Cvalue] is the left-to-right sum
    of [BLOCK_SIZE * iters] products, the one of index [e] being the step
    [e mod BLOCK_SIZE] of the iteration [e / BLOCK_SIZE]. *)
Lemma Partitioned_Cvalue_flat (g : memory F) (A B : Matrix)
      (blockRow blockCol row col iters : Z) :
  0 <= iters ->
  Partitioned_Cvalue g A B blockRow blockCol row col (range iters) fzero
  = sum_lr (fun e => Partitioned_term g A B blockRow blockCol row col
                                      (e / BLOCK_SIZE) (e mod BLOCK_SIZE))
           (BLOCK_SIZE * iters).
Proof.
  intros Hk. unfold sum_lr. rewrite <- fold_blocks by assumption.
  unfold Partitioned_Cvalue. apply fold_left_ext_in. intros m acc Hm.
  apply fold_left_ext_in. intros e acc' He. apply in_range in He.
  unfold BLOCK_SIZE in *. do 2 f_equal.
  - rewrite Z.div_add_l by lia. rewrite Z.div_small by lia. lia.
  - rewrite Z.add_comm, Z.mod_add by lia. now rewrite Z.mod_small by lia.
Qed.

(** Inside valid views the products are those of the matrix product, in the
    order of the contraction index, up to the last whole tile. *)
Lemma Partitioned_Cvalue_partial (g : memory F) (A B : Matrix)
      (blockRow blockCol row col : Z) :
  view_ok A -> view_ok B -> width A <= height B ->
  0 <= blockRow -> (blockRow + 1) * BLOCK_SIZE <= height A ->
  0 <= blockCol -> (blockCol + 1) * BLOCK_SIZE <= width B ->
  0 <= row < BLOCK_SIZE -> 0 <= col < BLOCK_SIZE ->
  Partitioned_Cvalue g A B blockRow blockCol row col
                     (range (width A / BLOCK_SIZE)) fzero
  = sum_lr (fun e => fmul (g (elem_addr A (blockRow * BLOCK_SIZE + row) e))
                          (g (elem_addr B e (blockCol * BLOCK_SIZE + col))))
           (BLOCK_SIZE * (width A / BLOCK_SIZE)).
Proof.
  intros HA HB Hab Hbr Hbrh Hbc Hbcw Hrow Hcol.
  assert (Hk : 0 <= width A / BLOCK_SIZE).
  { apply Z.div_pos; [apply HA | unfold BLOCK_SIZE; lia]. }
  unfold sum_lr. rewrite <- fold_blocks by assumption.
  unfold Partitioned_Cvalue. apply fold_left_ext_in. intros m acc Hm.
  apply in_range in Hm.
  assert (Hm' : (m + 1) * BLOCK_SIZE <= width A).
  { pose proof (Z.mul_div_le (width A) BLOCK_SIZE ltac:(unfold BLOCK_SIZE; lia)).
    unfold BLOCK_SIZE in *. lia. }
  apply fold_left_ext_in. intros e acc' He. apply in_range in He.
  unfold Partitioned_term.
  rewrite !int_elem_addr_Tile by (try assumption; lia). reflexivity.
Qed.

Lemma Partitioned_Cvalue_product (g : memory F) (A B : Matrix)
      (blockRow blockCol row col : Z) :
  view_ok A -> view_ok B ->
  multiple_of_BLOCK (width A) -> width A <= height B ->
  0 <= blockRow -> (blockRow + 1) * BLOCK_SIZE <= height A ->
  0 <= blockCol -> (blockCol + 1) * BLOCK_SIZE <= width B ->
  0 <= row < BLOCK_SIZE -> 0 <= col < BLOCK_SIZE ->
  Partitioned_Cvalue g A B blockRow blockCol row col
                     (range (width A / BLOCK_SIZE)) fzero
  = product_elem g A B (blockRow * BLOCK_SIZE + row) (blockCol * BLOCK_SIZE + col).
Proof.
  intros HA HB Hmul Hab Hbr Hbrh Hbc Hbcw Hrow Hcol.
  rewrite Partitioned_Cvalue_partial by assumption.
  unfold product_elem. now rewrite <- (@multiple_div (width A) Hmul).
Qed.

(** ** One block of the tiled kernel under the dimension invariant *)

Lemma Partitioned_block (A B C : Matrix) (g0 : memory F) (b : dim3) (s : kstate F) :
  dimension_invariant A B C ->
  blk (elements A) <> blk (elements C) ->
  blk (elements B) <> blk (elements C) ->
  In b (dim3_indices (dimGrid_of A B)) ->
  same_off C g0 s ->
  same_off C g0 (snd (MatMulKernelPartitioned A B C b dimBlock16 s))
  /\ (forall i j, inside C i j -> block_owns b i j ->
                  cell C (snd (MatMulKernelPartitioned A B C b dimBlock16 s)) i j
                  = product_elem g0 A B i j)
  /\ (forall i j, inside C i j -> ~ block_owns b i j ->
                  cell C (snd (MatMulKernelPartitioned A B C b dimBlock16 s)) i j
                  = cell C s i j).
Proof.
  intros Hdim HAC HBC Hb Hs.
  destruct (@grid_block_inside A B C b Hdim Hb) as (Hbx & Hby & Hbh & Hbw & Hxi & Hyi & HhAi & HwBi).
  destruct Hdim as (HA & HB & HC & HwA & HhA & HwB & HwC & HhC & Hab & Hac & Hbc).
  destruct HA as (HvA & HfA), HB as (HvB & HfB), HC as (HvC & HfC).
  destruct s as [g a b' tr].
  pose proof (Partitioned_run A B C b g a b' tr) as Hrun. cbv zeta in Hrun.
  destruct Hrun as (Hg & _).
  assert (Hty : to_int (dim_y b) = dim_y b)
    by (apply to_int_small; unfold INT_MIN, INT_MAX in *; lia).
  assert (Htx : to_int (dim_x b) = dim_x b)
    by (apply to_int_small; unfold INT_MIN, INT_MAX in *; lia).
  rewrite Hty, Htx in Hg.
  assert (HwA' : 0 <= width A <= INT_MAX).
  { destruct HvA as (? & ? & ? & ?). unfold INT_MAX, BLOCK_SIZE in *. nia. }
  rewrite idiv_nonneg in Hg by assumption.
  assert (Haddr : forall t, In t (dim3_indices dimBlock16) ->
            int_elem_addr (Asub C (dim_y b) (dim_x b)) (dim_y t) (dim_x t)
            = elem_addr C (dim_y b * BLOCK_SIZE + dim_y t) (dim_x b * BLOCK_SIZE + dim_x t)).
  { intros t Ht. apply in_dim3_indices in Ht. cbn [dimBlock16 dim_x dim_y] in Ht.
    apply int_elem_addr_Tile; try assumption; lia. }
  unfold cell. rewrite Hg. split; [|split].
  - intros p Hp. rewrite Hg. rewrite write_all_notin; [now apply Hs|].
    intros t Ht Heq. apply Hp. rewrite <- Heq. reflexivity.
  - intros i j (Hi & Hj) (Hoi & Hoj). cbn [gmem].
    set (t := {| dim_x := j - dim_x b * BLOCK_SIZE; dim_y := i - dim_y b * BLOCK_SIZE |}).
    assert (Ht : In t (dim3_indices dimBlock16)).
    { apply in_dim3_indices. cbn [t dimBlock16 dim_x dim_y]. lia. }
    replace (elem_addr C i j)
      with (int_elem_addr (Asub C (dim_y b) (dim_x b)) (dim_y t) (dim_x t)).
    2:{ rewrite Haddr by assumption. cbn [t dim_x dim_y]. f_equal; lia. }
    rewrite write_all_in with (t := t); [|assumption|].
    + rewrite Partitioned_Cvalue_product; try assumption; try lia;
        try (cbn [t dim_x dim_y]; lia).
      cbn [t dim_x dim_y].
      replace (dim_y b * BLOCK_SIZE + (i - dim_y b * BLOCK_SIZE)) with i by lia.
      replace (dim_x b * BLOCK_SIZE + (j - dim_x b * BLOCK_SIZE)) with j by lia.
      apply (@product_elem_same_off A B C g0 {| gmem := g; shAs := a; shBs := b'; trace := tr |} i j HAC HBC Hs).
    + intros t' Ht' Heq. rewrite !Haddr in Heq by assumption.
      apply in_dim3_indices in Ht'. cbn [dimBlock16 dim_x dim_y] in Ht'.
      apply elem_addr_inj in Heq as (Hr & Hc);
        [| destruct HvC as (? & ? & ? & ?); cbn [t dim_x dim_y]; unfold BLOCK_SIZE in *; lia ..].
      replace (dim_y t') with (dim_y t) by lia.
      replace (dim_x t') with (dim_x t) by lia. reflexivity.
  - intros i j (Hi & Hj) Hno. cbn [gmem]. apply write_all_notin.
    intros t Ht Heq. rewrite Haddr in Heq by assumption.
    apply in_dim3_indices in Ht. cbn [dimBlock16 dim_x dim_y] in Ht.
    apply elem_addr_inj in Heq as (Hr & Hc);
      [| destruct HvC as (? & ? & ? & ?); unfold BLOCK_SIZE in *; lia ..].
    apply Hno. unfold block_owns. lia.
Qed.


(** ** The direct kernel under the dimension invariant *)

Lemma General_thread (A B C : Matrix) (g0 : memory F) (b t : dim3) (s : kstate F) :
  dimension_invariant A B C ->
  blk (elements A) <> blk (elements C) ->
  blk (elements B) <> blk (elements C) ->
  In b (dim3_indices (dimGrid_of A B)) ->
  In t (dim3_indices dimBlock16) ->
  same_off C g0 s ->
  same_off C g0 (snd (MatMulKernelGeneral A B C b dimBlock16 t s))
  /\ (forall i j, inside C i j -> thread_owns b t i j ->
                  cell C (snd (MatMulKernelGeneral A B C b dimBlock16 t s)) i j
                  = product_elem g0 A B i j)
  /\ (forall i j, inside C i j -> ~ thread_owns b t i j ->
                  cell C (snd (MatMulKernelGeneral A B C b dimBlock16 t s)) i j
                  = cell C s i j).
Proof.
  intros Hdim HAC HBC Hb Ht Hs.
  destruct (@grid_block_inside A B C b Hdim Hb) as (Hbx & Hby & Hbh & Hbw & Hxi & Hyi & HhAi & HwBi).
  destruct Hdim as (HA & HB & HC & HwA & HhA & HwB & HwC & HhC & Hab & Hac & Hbc).
  apply in_dim3_indices in Ht. cbn [dimBlock16 dim_x dim_y] in Ht.
  destruct s as [g a b' tr]. rewrite General_run. cbn [snd dimBlock16 dim_x dim_y].
  assert (Hrow : to_int (dim_y b * BLOCK_SIZE + dim_y t) = dim_y b * BLOCK_SIZE + dim_y t).
  { apply to_int_small. unfold INT_MIN, INT_MAX, BLOCK_SIZE in *. lia. }
  assert (Hcol : to_int (dim_x b * BLOCK_SIZE + dim_x t) = dim_x b * BLOCK_SIZE + dim_x t).
  { apply to_int_small. unfold INT_MIN, INT_MAX, BLOCK_SIZE in *. lia. }
  rewrite Hrow, Hcol.
  set (row := dim_y b * BLOCK_SIZE + dim_y t) in *.
  set (col := dim_x b * BLOCK_SIZE + dim_x t) in *.
  assert (HrowA : 0 <= row < height A) by (unfold row, BLOCK_SIZE in *; lia).
  assert (HcolB : 0 <= col < width B) by (unfold col, BLOCK_SIZE in *; lia).
  rewrite (@General_addr C) by (try assumption; lia).
  unfold cell. cbn [gmem]. split; [|split].
  - intros p Hp. cbn [gmem].
    rewrite upd_other_blk by (rewrite blk_elem_addr; assumption).
    now apply Hs.
  - intros i j _ (-> & ->). fold row col. rewrite upd_same.
    rewrite <- (@product_elem_same_off A B C g0 {| gmem := g; shAs := a; shBs := b'; trace := tr |} row col HAC HBC Hs).
    unfold product_elem, sum_lr. cbn [gmem]. apply fold_left_ext_in.
    intros e acc He. apply in_range in He.
    rewrite !General_addr by (try assumption; lia). reflexivity.
  - intros i j (Hi & Hj) Hno. apply upd_other. intros Heq.
    apply elem_addr_inj in Heq as (Hr & Hc);
      [| destruct HC as ((? & ? & ? & ?) & ?); lia ..].
    apply Hno. unfold thread_owns. fold row col. lia.
Qed.

Lemma General_block (A B C : Matrix) (g0 : memory F) (b : dim3) (s : kstate F) :
  dimension_invariant A B C ->
  blk (elements A) <> blk (elements C) ->
  blk (elements B) <> blk (elements C) ->
  In b (dim3_indices (dimGrid_of A B)) ->
  same_off C g0 s ->
  let s' := snd (each_K (MatMulKernelGeneral A B C b dimBlock16)
                        (dim3_indices dimBlock16) s) in
  same_off C g0 s'
  /\ (forall i j, inside C i j -> block_owns b i j ->
                  cell C s' i j = product_elem g0 A B i j)
  /\ (forall i j, inside C i j -> ~ block_owns b i j -> cell C s' i j = cell C s i j).
Proof.
  intros Hdim HAC HBC Hb Hs. cbv zeta. rewrite each_K_fold. cbn [snd].
  destruct (@writers_fold dim3
              (fun t s => snd (MatMulKernelGeneral A B C b dimBlock16 t s))
              (same_off C g0) (cell C) (product_elem g0 A B) (inside C)
              (thread_owns b) (fun t => In t (dim3_indices dimBlock16))
              (thread_owns_dec b)
              ltac:(intros t s0 Ht Hs0; cbv beta in *;
                    apply (@General_thread A B C g0 b t s0 Hdim HAC HBC Hb Ht Hs0))
              ltac:(intros t s0 i j Ht Hs0 Hin Ho; cbv beta in *;
                    now apply (@General_thread A B C g0 b t s0 Hdim HAC HBC Hb Ht Hs0))
              ltac:(intros t s0 i j Ht Hs0 Hin Ho; cbv beta in *;
                    now apply (@General_thread A B C g0 b t s0 Hdim HAC HBC Hb Ht Hs0))
              (dim3_indices dimBlock16) s (fun t Ht => Ht) Hs)
    as (Hinv & Hown & Hother).
  split; [exact Hinv|]. split.
  - intros i j Hin (Hoi & Hoj). apply Hown; [assumption|].
    exists {| dim_x := j - dim_x b * BLOCK_SIZE; dim_y := i - dim_y b * BLOCK_SIZE |}.
    split; [apply in_dim3_indices; cbn [dimBlock16 dim_x dim_y]; lia|].
    unfold thread_owns. cbn [dim_x dim_y]. lia.
  - intros i j Hin Hno. apply Hother; [assumption|].
    intros t Ht (Hi & Hj). apply Hno. apply in_dim3_indices in Ht.
    cbn [dimBlock16 dim_x dim_y] in Ht. unfold block_owns. lia.
Qed.

(** ** A launch on the grid of [MatMul] under the dimension invariant *)

Lemma launch_correct (k : kernel) (A B C : Matrix) (s : kstate F) :
  dimension_invariant A B C ->
  blk (elements A) <> blk (elements C) ->
  blk (elements B) <> blk (elements C) ->
  let s' := snd (launch k (dimGrid_of A B) dimBlock16 A B C s) in
  same_off C (gmem s) s'
  /\ forall i j, inside C i j -> cell C s' i j = product_elem (gmem s) A B i j.
Proof.
  intros Hdim HAC HBC. cbv zeta.
  assert (Hcover : forall i j, inside C i j ->
            exists b, In b (dim3_indices (dimGrid_of A B)) /\ block_owns b i j).
  { intros i j (Hi & Hj).
    destruct Hdim as (HA & HB & HC & HwA & HhA & HwB & HwC & HhC & Hab & Hac & Hbc).
    exists {| dim_x := j / BLOCK_SIZE; dim_y := i / BLOCK_SIZE |}.
    apply multiple_div in HhA, HwB.
    pose proof (Z.div_mod i BLOCK_SIZE ltac:(unfold BLOCK_SIZE; lia)).
    pose proof (Z.div_mod j BLOCK_SIZE ltac:(unfold BLOCK_SIZE; lia)).
    pose proof (Z.mod_pos_bound i BLOCK_SIZE ltac:(unfold BLOCK_SIZE; lia)).
    pose proof (Z.mod_pos_bound j BLOCK_SIZE ltac:(unfold BLOCK_SIZE; lia)).
    split.
    - apply in_dim3_indices. unfold dimGrid_of. cbn [dim_x dim_y].
      unfold BLOCK_SIZE in *. lia.
    - unfold block_owns. cbn [dim_x dim_y]. unfold BLOCK_SIZE in *. lia. }
  assert (Hs : same_off C (gmem s) s) by (intros p _; reflexivity).
  destruct k; unfold launch; rewrite each_K_fold; cbn [snd].
  - destruct (@writers_fold dim3
                (fun b s => snd (each_K (MatMulKernelGeneral A B C b dimBlock16)
                                        (dim3_indices dimBlock16) s))
                (same_off C (gmem s)) (cell C) (product_elem (gmem s) A B) (inside C)
                block_owns (fun b => In b (dim3_indices (dimGrid_of A B)))
                block_owns_dec
                ltac:(intros b s0 Hb Hs0; cbv beta in *;
                      apply (@General_block A B C (gmem s) b s0 Hdim HAC HBC Hb Hs0))
                ltac:(intros b s0 i j Hb Hs0 Hin Ho; cbv beta in *;
                      now apply (@General_block A B C (gmem s) b s0 Hdim HAC HBC Hb Hs0))
                ltac:(intros b s0 i j Hb Hs0 Hin Ho; cbv beta in *;
                      now apply (@General_block A B C (gmem s) b s0 Hdim HAC HBC Hb Hs0))
                (dim3_indices (dimGrid_of A B)) s (fun b Hb => Hb) Hs)
      as (Hinv & Hown & _).
    split; [exact Hinv|]. intros i j Hin. apply Hown; [assumption|]. now apply Hcover.
  - destruct (@writers_fold dim3
                (fun b s => snd (MatMulKernelPartitioned A B C b dimBlock16 s))
                (same_off C (gmem s)) (cell C) (product_elem (gmem s) A B) (inside C)
                block_owns (fun b => In b (dim3_indices (dimGrid_of A B)))
                block_owns_dec
                ltac:(intros b s0 Hb Hs0; cbv beta in *;
                      apply (@Partitioned_block A B C (gmem s) b s0 Hdim HAC HBC Hb Hs0))
                ltac:(intros b s0 i j Hb Hs0 Hin Ho; cbv beta in *;
                      now apply (@Partitioned_block A B C (gmem s) b s0 Hdim HAC HBC Hb Hs0))
                ltac:(intros b s0 i j Hb Hs0 Hin Ho; cbv beta in *;
                      now apply (@Partitioned_block A B C (gmem s) b s0 Hdim HAC HBC Hb Hs0))
                (dim3_indices (dimGrid_of A B)) s (fun b Hb => Hb) Hs)
      as (Hinv & Hown & _).
    split; [exact Hinv|]. intros i j Hin. apply Hown; [assumption|]. now apply Hcover.
Qed.

(** ** The runtime calls, field by field *)

Lemma cudaMalloc_ok (p : ptr) (size : Z) (st : state F) :
  used (live st) + size <= capacity st ->
  cudaMalloc p size st
  = ({| blk := fresh (live st); off := 0 |},
     {| host := host st; device := device st;
        live := (fresh (live st), size) :: live st;
        capacity := capacity st; launch_ok := launch_ok st;
        events := events st ++ [EvMalloc (fresh (live st)) size] |}).
Proof.
  intros Hfit. unfold cudaMalloc.
  destruct (Z.leb_spec (used (live st) + size) (capacity st)); [reflexivity | lia].
Qed.

Lemma cudaMalloc_cases (p : ptr) (size : Z) (st : state F) :
  host (snd (cudaMalloc p size st)) = host st
  /\ device (snd (cudaMalloc p size st)) = device st
  /\ capacity (snd (cudaMalloc p size st)) = capacity st
  /\ launch_ok (snd (cudaMalloc p size st)) = launch_ok st
  /\ ((fst (cudaMalloc p size st) = {| blk := fresh (live st); off := 0 |}
       /\ live (snd (cudaMalloc p size st)) = (fresh (live st), size) :: live st)
      \/ (fst (cudaMalloc p size st) = p
          /\ live (snd (cudaMalloc p size st)) = live st)).
Proof.
  unfold cudaMalloc.
  destruct (used (live st) + size <=? capacity st); cbn [fst snd host device capacity launch_ok live];
    repeat split; auto.
Qed.

Lemma is_live_false (h : Z) (l : list (Z * Z)) :
  is_live h l = false -> forall hb, In hb l -> (fst hb =? h) = false.
Proof.
  unfold is_live, handles. intros Hl hb Hhb.
  destruct (Z.eqb_spec (fst hb) h) as [Heq|]; [|reflexivity].
  assert (existsb (Z.eqb h) (map fst l) = true); [|congruence].
  apply existsb_exists. exists (fst hb). split; [now apply in_map | now apply Z.eqb_eq].
Qed.

Lemma filter_all (T : Type) (f : T -> bool) (l : list T) :
  (forall x, In x l -> f x = true) -> filter f l = l.
Proof.
  induction l as [|x l IH]; intros Hf; simpl; [reflexivity|].
  rewrite Hf by now left. f_equal. apply IH. intros; apply Hf; now right.
Qed.

Lemma filter_none (T : Type) (f : T -> bool) (l : list T) :
  (forall x, In x l -> f x = false) -> filter f l = [].
Proof.
  induction l as [|x l IH]; intros Hf; simpl; [reflexivity|].
  rewrite Hf by now left. apply IH. intros; apply Hf; now right.
Qed.

(** What [cudaFree] keeps of the pool. *)
Lemma cudaFree_live (p : ptr) (st : state F) :
  live (cudaFree p st) = filter (fun hb => negb (released p hb)) (live st).
Proof.
  unfold cudaFree, released.
  destruct (Z.eqb_spec (off p) 0) as [Hoff|Hoff]; cbn [andb].
  - destruct (is_live (blk p) (live st)) eqn:E; cbn [live]; [reflexivity|].
    symmetry. apply filter_all. intros hb Hhb.
    now rewrite (is_live_false _ _ E hb Hhb).
  - cbn [live]. symmetry. now apply filter_all.
Qed.

Lemma cudaFree_fields (p : ptr) (st : state F) :
  host (cudaFree p st) = host st /\ device (cudaFree p st) = device st
  /\ capacity (cudaFree p st) = capacity st /\ launch_ok (cudaFree p st) = launch_ok st.
Proof.
  unfold cudaFree. destruct ((off p =? 0) && is_live (blk p) (live st)); auto.
Qed.

Lemma used_cons (h size : Z) (l : list (Z * Z)) : used ((h, size) :: l) = size + used l.
Proof. reflexivity. Qed.

Lemma fresh_not_in (l : list (Z * Z)) (hb : Z * Z) : In hb l -> fst hb < fresh l.
Proof.
  unfold fresh, handles. induction l as [|x l IH]; intros Hin; [easy|].
  cbn [map fold_right]. destruct Hin as [->|Hin]; [lia|]. specialize (IH Hin). lia.
Qed.

Lemma fresh_pos (l : list (Z * Z)) : 0 < fresh l.
Proof. unfold fresh, handles. induction l as [|x l IH]; cbn [map fold_right]; lia. Qed.

Lemma fresh_cons (l : list (Z * Z)) (size : Z) :
  fresh ((fresh l, size) :: l) = fresh l + 1.
Proof.
  pose proof (fresh_pos l). unfold fresh, handles in *. cbn [map fold_right fst]. lia.
Qed.


Lemma is_live_in (h : Z) (l : list (Z * Z)) : In h (handles l) -> is_live h l = true.
Proof.
  intros Hin. unfold is_live. apply existsb_exists. exists h. split; [assumption|].
  apply Z.eqb_refl.
Qed.

Lemma cudaFree_held (p : ptr) (st : state F) :
  off p = 0 -> is_live (blk p) (live st) = true ->
  cudaFree p st
  = {| host := host st; device := device st;
       live := release (blk p) (live st);
       capacity := capacity st; launch_ok := launch_ok st;
       events := events st ++ [EvFree (blk p)] |}.
Proof. intros Hoff Hlive. unfold cudaFree. now rewrite Hoff, Hlive. Qed.

Lemma release_fresh (h : Z) (l : list (Z * Z)) :
  (forall hb, In hb l -> fst hb < h) -> release h l = l.
Proof.
  intros Hl. apply filter_all. intros hb Hhb. specialize (Hl hb Hhb).
  destruct (Z.eqb_spec (fst hb) h); [lia | reflexivity].
Qed.

Lemma release_head (h size : Z) (l : list (Z * Z)) :
  release h ((h, size) :: l) = release h l.
Proof. unfold release. cbn [filter fst]. now rewrite Z.eqb_refl. Qed.

Lemma release_skip (h h' size : Z) (l : list (Z * Z)) :
  h' <> h -> release h ((h', size) :: l) = (h', size) :: release h l.
Proof.
  intros Hne. unfold release. cbn [filter fst].
  destruct (Z.eqb_spec h' h); [contradiction | reflexivity].
Qed.

(** The three buffers of one call, released in the order of the source. *)
Lemma release3 (sA sB sC : Z) (l : list (Z * Z)) :
  (forall hb, In hb l -> fst hb < fresh l) ->
  let h := fresh l in
  release h ((h + 2, sC) :: (h + 1, sB) :: (h, sA) :: l) = (h + 2, sC) :: (h + 1, sB) :: l
  /\ release (h + 1) ((h + 2, sC) :: (h + 1, sB) :: l) = (h + 2, sC) :: l
  /\ release (h + 2) ((h + 2, sC) :: l) = l.
Proof.
  intros Hl h. repeat split.
  - rewrite !release_skip, release_head, release_fresh by (try assumption; lia).
    reflexivity.
  - rewrite release_skip, release_head, release_fresh by (try lia; intros hb Hhb;
      specialize (Hl hb Hhb); unfold h; lia).
    reflexivity.
  - rewrite release_head, release_fresh by (intros hb Hhb;
      specialize (Hl hb Hhb); unfold h; lia).
    reflexivity.
Qed.

(** ** [MatMul] when the three allocations succeed *)

Lemma copy_in (dm sm : memory F) (dst src q : ptr) (n : Z) :
  blk q = blk dst -> off dst <= off q < off dst + n ->
  copy dm sm dst src n q = sm (ptr_add src (off q - off dst)).
Proof.
  intros Hb Ho. unfold copy.
  destruct (Z.eqb_spec (blk q) (blk dst)); [|contradiction].
  destruct (Z.leb_spec (off dst) (off q)); [|lia].
  destruct (Z.ltb_spec (off q) (off dst + n)); [reflexivity|lia].
Qed.

Lemma copy_out (dm sm : memory F) (dst src q : ptr) (n : Z) :
  blk q <> blk dst \/ off q < off dst \/ off dst + n <= off q ->
  copy dm sm dst src n q = dm q.
Proof.
  intros Hout. unfold copy.
  destruct (Z.eqb_spec (blk q) (blk dst)); [|reflexivity].
  destruct (Z.leb_spec (off dst) (off q)); [|reflexivity].
  destruct (Z.ltb_spec (off q) (off dst + n)); [lia|reflexivity].
Qed.

Lemma byte_size_nonneg (M : Matrix) : 0 <= byte_size M.
Proof. unfold byte_size, to_size. apply Z.mod_pos_bound. lia. Qed.

Lemma byte_size_full (M : Matrix) :
  full_matrix M -> byte_size M / sizeof_float = width M * height M.
Proof.
  unfold full_matrix, view_ok, INT_MAX. intros ((Hw & Hh & Hs & Hrange) & Hfull).
  rewrite Hfull in *. unfold byte_size, imul, sizeof_float.
  assert (Hn : 0 <= width M * height M <= 2147483647) by nia.
  rewrite to_int_small by (unfold INT_MIN, INT_MAX; lia).
  unfold to_size. rewrite (Z.mod_small (width M * height M)) by lia.
  rewrite Z.mod_small by lia.
  apply Z.div_mul. lia.
Qed.

Lemma MatMul_fits (A B C : Matrix) (general : bool) (u : uninitialised) (st : state F) :
  fits A B C (live st) (capacity st) ->
  let h := fresh (live st) in
  host (MatMul A B C general u st)
  = copy (host st) (gmem (launched A B C general st)) (elements C)
         {| blk := h + 2; off := 0 |} (byte_size C / sizeof_float)
  /\ device (MatMul A B C general u st) = launched A B C general st
  /\ live (MatMul A B C general u st) = live st
  /\ events (MatMul A B C general u st)
     = events st ++ [EvMalloc h (byte_size A); EvMalloc (h + 1) (byte_size B);
                     EvMalloc (h + 2) (byte_size C);
                     EvLaunch (kernel_of general) (dimGrid_host A B) dimBlock16;
                     EvFree h; EvFree (h + 1); EvFree (h + 2)].
Proof.
  unfold fits. intros Hfit.
  pose proof (byte_size_nonneg A). pose proof (byte_size_nonneg B).
  pose proof (byte_size_nonneg C). pose proof (fresh_pos (live st)).
  assert (Hl : forall hb, In hb (live st) -> fst hb < fresh (live st))
    by (intros; now apply fresh_not_in).
  cbv zeta. unfold MatMul, cudaMemcpyHostToDevice.
  rewrite cudaMalloc_ok by lia.
  cbn [elements live host device capacity launch_ok events].
  rewrite cudaMalloc_ok by (cbn [live capacity]; rewrite ?used_cons; lia).
  cbn [elements live host device capacity launch_ok events].
  rewrite cudaMalloc_ok by (cbn [live capacity]; rewrite ?used_cons; lia).
  cbn [elements live host device capacity launch_ok events gmem shAs shBs trace
       dim_x dim_y].
  rewrite !fresh_cons.
  replace (fresh (live st) + 1 + 1) with (fresh (live st) + 2) by lia.
  set (h := fresh (live st)) in *.
  match goal with
  | |- context [if general then ?x else ?y] =>
      set (st4 := if general then x else y)
  end.
  assert (Hst4 : host st4 = host st
                 /\ device st4 = launched A B C general st
                 /\ live st4 = (h + 2, byte_size C) :: (h + 1, byte_size B)
                               :: (h, byte_size A) :: live st
                 /\ capacity st4 = capacity st /\ launch_ok st4 = launch_ok st
                 /\ events st4 = events st ++ [EvMalloc h (byte_size A);
                                               EvMalloc (h + 1) (byte_size B);
                                               EvMalloc (h + 2) (byte_size C);
                                               EvLaunch (kernel_of general)
                                                        (dimGrid_host A B) dimBlock16]).
  { unfold st4, launched, staged, kernel_of. fold h.
    destruct general; unfold cudaLaunch;
      cbn [host device live capacity launch_ok events];
      rewrite <- !app_assoc; repeat split; reflexivity. }
  clearbody st4. destruct Hst4 as (Hh & Hd & Hli & Hc & Hlo & He).
  destruct (@release3 (byte_size A) (byte_size B) (byte_size C) (live st) Hl) as (R1 & R2 & R3).
  fold h in R1, R2, R3.
  unfold cudaMemcpyDeviceToHost.
  rewrite (@cudaFree_held {| blk := h; off := 0 |}); cbn [off blk live];
    [| reflexivity | rewrite Hli; apply is_live_in; simpl; auto].
  rewrite (@cudaFree_held {| blk := h + 1; off := 0 |}); cbn [off blk live];
    [| reflexivity | rewrite Hli, R1; apply is_live_in; simpl; auto].
  rewrite (@cudaFree_held {| blk := h + 2; off := 0 |}); cbn [off blk live];
    [| reflexivity | rewrite Hli, R1, R2; apply is_live_in; simpl; auto].
  cbn [host device live events]. rewrite Hli, R1, R2, R3, Hh, Hd, He.
  rewrite <- !app_assoc. repeat split; reflexivity.
Qed.

Lemma dev_matrix_invariant (A B C : Matrix) (hA hB hC : Z) :
  dimension_invariant A B C ->
  dimension_invariant (dev_matrix A hA) (dev_matrix B hB) (dev_matrix C hC).
Proof.
  unfold dimension_invariant, full_matrix, view_ok, dev_matrix.
  cbn [width height stride].
  intros (((? & ? & ? & ?) & HA) & ((? & ? & ? & ?) & HB) & ((? & ? & ? & ?) & HC) & Hrest).
  rewrite HA, HB, HC in *. repeat split; try lia; try tauto.
Qed.

Lemma dimGrid_host_of (A B C : Matrix) (hA hB : Z) :
  dimension_invariant A B C ->
  dimGrid_host A B = dimGrid_of (dev_matrix A hA) (dev_matrix B hB).
Proof.
  intros (((? & ? & ? & ?) & HA) & ((? & ? & ? & ?) & HB) & _).
  unfold dimGrid_host, dimGrid_of, dev_matrix. cbn [width height].
  rewrite HA, HB in *.
  rewrite !udiv_nonneg; [reflexivity | |]; unfold INT_MAX, BLOCK_SIZE in *.
  - destruct (Z.eq_dec (width A) 0); nia.
  - destruct (Z.eq_dec (height B) 0); nia.
Qed.

(** The staged copy of a full matrix holds the elements of the host matrix. *)
Lemma staged_A (A B : Matrix) (st : state F) (i e : Z) :
  full_matrix A -> 0 <= i < height A -> 0 <= e < width A ->
  gmem (staged A B st) (elem_addr (dev_matrix A (fresh (live st))) i e)
  = host st (elem_addr A i e).
Proof.
  intros HA Hi He. pose proof (@byte_size_full A HA) as Hn.
  destruct HA as ((Hw & Hh & Hs & Hrange) & Hfull).
  unfold staged, elem_addr, dev_matrix, ptr_add. cbn [gmem elements stride blk off].
  rewrite copy_out by (left; cbn [blk]; lia).
  rewrite copy_in; cbn [blk off]; [| reflexivity | rewrite Hn, Hfull in *; nia].
  unfold ptr_add. rewrite Hfull. do 2 f_equal. lia.
Qed.

Lemma staged_B (A B : Matrix) (st : state F) (e j : Z) :
  full_matrix B -> 0 <= e < height B -> 0 <= j < width B ->
  gmem (staged A B st) (elem_addr (dev_matrix B (fresh (live st) + 1)) e j)
  = host st (elem_addr B e j).
Proof.
  intros HB He Hj. pose proof (@byte_size_full B HB) as Hn.
  destruct HB as ((Hw & Hh & Hs & Hrange) & Hfull).
  unfold staged, elem_addr, dev_matrix, ptr_add. cbn [gmem elements stride blk off].
  rewrite copy_in; cbn [blk off]; [| reflexivity | rewrite Hn, Hfull in *; nia].
  unfold ptr_add. rewrite Hfull. do 2 f_equal. lia.
Qed.

(** After a successful call every element of [C] is the left-to-right sum
    over the elements that the host memory held for [A] and [B]; neither
    the strategy nor the state of the accelerator shows in it. *)
Lemma MatMul_result (A B C : Matrix) (general : bool) (u : uninitialised) (st : state F)
      (i j : Z) :
  dimension_invariant A B C ->
  fits A B C (live st) (capacity st) ->
  launch_ok st = true ->
  inside C i j ->
  host (MatMul A B C general u st) (elem_addr C i j) = product_elem (host st) A B i j.
Proof.
  intros Hdim Hfit Hok (Hi & Hj).
  destruct (@MatMul_fits A B C general u st Hfit) as (Hhost & _). cbv zeta in Hhost.
  rewrite Hhost. clear Hhost.
  pose proof Hdim as (HA & HB & HC & HwA & HhA & HwB & HwC & HhC & Hab & Hac & Hbc).
  pose proof (@byte_size_full C HC) as Hn.
  pose proof HC as ((HCw & HCh & HCs & HCi) & HCfull).
  rewrite copy_in; [| reflexivity |].
  2:{ unfold elem_addr, ptr_add. cbn [off]. rewrite Hn, HCfull. nia. }
  unfold launched. rewrite Hok.
  rewrite (@dimGrid_host_of A B C (fresh (live st)) (fresh (live st) + 1) Hdim).
  set (h := fresh (live st)).
  destruct (@launch_correct (kernel_of general) (dev_matrix A h) (dev_matrix B (h + 1))
              (dev_matrix C (h + 2)) (staged A B st)
              (@dev_matrix_invariant A B C h (h + 1) (h + 2) Hdim)) as (_ & Hcell).
  { cbn [dev_matrix elements blk]. lia. }
  { cbn [dev_matrix elements blk]. lia. }
  specialize (Hcell i j). unfold cell in Hcell.
  replace (ptr_add {| blk := h + 2; off := 0 |} (off (elem_addr C i j) - off (elements C)))
    with (elem_addr (dev_matrix C (h + 2)) i j).
  2:{ unfold elem_addr, dev_matrix, ptr_add. cbn [elements stride blk off].
      rewrite HCfull. f_equal. lia. }
  rewrite Hcell by (unfold inside, dev_matrix; cbn [width height]; lia).
  unfold product_elem, sum_lr. cbn [dev_matrix width].
  apply fold_left_ext_in. intros e acc He. apply in_range in He.
  unfold h. rewrite staged_A, staged_B by (try assumption; lia). reflexivity.
Qed.


(** * The kernels *)

(** C1.  For matrices [A], [B], [C] that satisfy the dimension invariant
    and lie in buffers of their own, the tiled kernel run on the grid of
    [(B.width / BLOCK_SIZE, A.height / BLOCK_SIZE)] blocks of [BLOCK_SIZE] x
    [BLOCK_SIZE] threads leaves in every output element
    [C(blockRow * BLOCK_SIZE + row, blockCol * BLOCK_SIZE + col)] the sum,
    taken left to right over [e = 0 .. A.width - 1], of
    [A(blockRow * BLOCK_SIZE + row, e) * B(e, blockCol * BLOCK_SIZE + col)]. *)
Theorem C1_tiled_kernel_product (A B C : Matrix) (s : kstate F)
        (blockRow blockCol row col : Z) :
  dimension_invariant A B C ->
  blk (elements A) <> blk (elements C) ->
  blk (elements B) <> blk (elements C) ->
  0 <= blockRow < height A / BLOCK_SIZE ->
  0 <= blockCol < width B / BLOCK_SIZE ->
  0 <= row < BLOCK_SIZE -> 0 <= col < BLOCK_SIZE ->
  gmem (snd (launch KernelPartitioned (dimGrid_of A B) dimBlock16 A B C s))
       (elem_addr C (blockRow * BLOCK_SIZE + row) (blockCol * BLOCK_SIZE + col))
  = sum_lr (fun e => fmul (gmem s (elem_addr A (blockRow * BLOCK_SIZE + row) e))
                          (gmem s (elem_addr B e (blockCol * BLOCK_SIZE + col))))
           (width A).
Proof.
  intros Hdim HAC HBC Hbr Hbc Hrow Hcol.
  destruct (@launch_correct KernelPartitioned A B C s Hdim HAC HBC) as (_ & Hcell).
  apply Hcell.
  destruct Hdim as (HA & HB & HC & HwA & HhA & HwB & HwC & HhC & Hab & Hac & Hbc').
  apply multiple_div in HhA, HwB. unfold inside, BLOCK_SIZE in *. lia.
Qed.

(** C3.  In the direct kernel, the thread whose index gives the
    coordinates [(row, col)] inside [C] reads [A(row, e)] and [B(e, col)]
    for [e = 0 .. A.width - 1] in this order, writes the left-to-right sum
    of their products to [C(row, col)], and leaves every other address of
    the memory as it was. *)
Theorem C3_direct_kernel_thread (A B C : Matrix) (blockIdx blockDim threadIdx : dim3)
        (s : kstate F) :
  let row := dim_y blockIdx * dim_y blockDim + dim_y threadIdx in
  let col := dim_x blockIdx * dim_x blockDim + dim_x threadIdx in
  let s' := snd (MatMulKernelGeneral A B C blockIdx blockDim threadIdx s) in
  full_matrix A -> full_matrix B -> full_matrix C ->
  width A = height B -> height A = height C -> width B = width C ->
  inside C row col ->
  gmem s' (elem_addr C row col)
  = sum_lr (fun e => fmul (gmem s (elem_addr A row e)) (gmem s (elem_addr B e col)))
           (width A)
  /\ (forall q, q <> elem_addr C row col -> gmem s' q = gmem s q)
  /\ trace s'
     = trace s
       ++ flat_map (fun e => [Rd (elem_addr A row e); Rd (elem_addr B e col)])
                   (range (width A))
       ++ [Wr (elem_addr C row col)].
Proof.
  intros row col s' HA HB HC Hab Hac Hbc (Hi & Hj). subst s'.
  destruct s as [g a b tr]. rewrite General_run. cbn [snd gmem trace].
  assert (Hrow : to_int row = row).
  { apply to_int_small. destruct HC as ((? & ? & ? & ? & ?) & ?).
    unfold INT_MIN, INT_MAX in *. lia. }
  assert (Hcol : to_int col = col).
  { apply to_int_small. destruct HC as ((? & ? & ? & ? & ?) & HfC).
    unfold INT_MIN, INT_MAX in *. lia. }
  fold row col. rewrite Hrow, Hcol.
  rewrite (@General_addr C) by (try assumption; lia).
  assert (Hreads : forall e, In e (range (width A)) ->
            ptr_add (elements A) (iadd (imul row (width A)) e) = elem_addr A row e
            /\ ptr_add (elements B) (iadd (imul e (width B)) col) = elem_addr B e col).
  { intros e He. apply in_range in He.
    split; apply General_addr; try assumption; lia. }
  split; [|split].
  - rewrite upd_same. unfold sum_lr. apply fold_left_ext_in.
    intros e acc He. destruct (Hreads e He) as (-> & ->). reflexivity.
  - intros q Hq. now apply upd_other.
  - do 2 f_equal. apply flat_map_in_ext. intros e He.
    destruct (Hreads e He) as (-> & ->). reflexivity.
Qed.

(** C5.  For a view [A] and block indices [blockRow], [blockCol] that are
    not negative and satisfy [(blockRow + 1) * BLOCK_SIZE <= A.height] and
    [(blockCol + 1) * BLOCK_SIZE <= A.width], [GetSubMatrix] returns the
    view of width and height [BLOCK_SIZE] with the stride of [A] whose data
    start at the element offset
    [A.stride * BLOCK_SIZE * blockRow + BLOCK_SIZE * blockCol] of the buffer
    of [A], the position of [A(blockRow * BLOCK_SIZE, blockCol * BLOCK_SIZE)];
    element [(r, c)] of the tile is element
    [(blockRow * BLOCK_SIZE + r, blockCol * BLOCK_SIZE + c)] of [A]; the
    state of the device (memory, shared tiles, accesses) is untouched. *)
Theorem C5_GetSubMatrix_tile (A : Matrix) (blockRow blockCol : Z) (s : kstate F) :
  view_ok A ->
  0 <= blockRow -> 0 <= blockCol ->
  (blockRow + 1) * BLOCK_SIZE <= height A ->
  (blockCol + 1) * BLOCK_SIZE <= width A ->
  GetSubMatrix A blockRow blockCol s
  = ({| width := BLOCK_SIZE; height := BLOCK_SIZE; stride := stride A;
        elements := ptr_add (elements A)
                            (stride A * BLOCK_SIZE * blockRow + BLOCK_SIZE * blockCol) |},
     s)
  /\ elements (fst (GetSubMatrix A blockRow blockCol s))
     = elem_addr A (blockRow * BLOCK_SIZE) (blockCol * BLOCK_SIZE)
  /\ forall r c,
      elem_addr (fst (GetSubMatrix A blockRow blockCol s)) r c
      = elem_addr A (blockRow * BLOCK_SIZE + r) (blockCol * BLOCK_SIZE + c).
Proof.
  intros Hok Hbr Hbc Hrh Hcw. unfold GetSubMatrix, ret. cbn [fst].
  rewrite Asub_Tile by assumption. unfold Tile, elem_addr. cbn [elements stride].
  split; [|split].
  - do 3 f_equal. lia.
  - reflexivity.
  - intros r c. rewrite ptr_add_add. f_equal. lia.
Qed.


(** C8.  Whatever the width of [A] (a multiple of [BLOCK_SIZE] or not), the
    loop of the tiled kernel ends with its counter at
    [A.width / BLOCK_SIZE], the quotient of the integer division, and the
    [Cvalue] of the thread [(row, col)] is then the left-to-right sum of the
    [BLOCK_SIZE * (A.width / BLOCK_SIZE)] first products of the contraction:
    the indices from there to [A.width - 1] are not read, and a memory that
    differs only there gives the same [Cvalue]. *)
Theorem C8_tiled_loop_whole_tiles (A B : Matrix) (blockIdx : dim3) (s : kstate F)
        (row col : Z) :
  let iters := width A / BLOCK_SIZE in
  let i := dim_y blockIdx * BLOCK_SIZE + row in
  let j := dim_x blockIdx * BLOCK_SIZE + col in
  view_ok A -> view_ok B -> width A <= height B ->
  0 <= dim_y blockIdx -> (dim_y blockIdx + 1) * BLOCK_SIZE <= height A ->
  0 <= dim_x blockIdx -> (dim_x blockIdx + 1) * BLOCK_SIZE <= width B ->
  0 <= row < BLOCK_SIZE -> 0 <= col < BLOCK_SIZE ->
  fst (fst (Partitioned_loop A B blockIdx dimBlock16 s)) = iters
  /\ snd (fst (Partitioned_loop A B blockIdx dimBlock16 s)) row col
     = sum_lr (fun e => fmul (gmem s (elem_addr A i e)) (gmem s (elem_addr B e j)))
              (BLOCK_SIZE * iters)
  /\ forall s2 : kstate F,
      (forall e, 0 <= e < BLOCK_SIZE * iters ->
                 gmem s2 (elem_addr A i e) = gmem s (elem_addr A i e)
                 /\ gmem s2 (elem_addr B e j) = gmem s (elem_addr B e j)) ->
      snd (fst (Partitioned_loop A B blockIdx dimBlock16 s2)) row col
      = snd (fst (Partitioned_loop A B blockIdx dimBlock16 s)) row col.
Proof.
  intros iters i j HA HB Hab Hby Hbyh Hbx Hbxw Hrow Hcol.
  assert (HwA : 0 <= width A <= INT_MAX).
  { destruct HA as (? & ? & ? & ? & ?). lia. }
  assert (Hty : to_int (dim_y blockIdx) = dim_y blockIdx).
  { apply to_int_small. destruct HA as (? & ? & ? & ? & ?).
    unfold INT_MIN, INT_MAX, BLOCK_SIZE in *. lia. }
  assert (Htx : to_int (dim_x blockIdx) = dim_x blockIdx).
  { apply to_int_small. destruct HB as (? & ? & ? & ? & ?).
    unfold INT_MIN, INT_MAX, BLOCK_SIZE in *. lia. }
  assert (Hk : 0 <= iters).
  { apply Z.div_pos; [lia | unfold BLOCK_SIZE; lia]. }
  assert (Hval : forall s0 : kstate F,
            fst (fst (Partitioned_loop A B blockIdx dimBlock16 s0)) = iters
            /\ snd (fst (Partitioned_loop A B blockIdx dimBlock16 s0)) row col
               = sum_lr (fun e => fmul (gmem s0 (elem_addr A i e))
                                       (gmem s0 (elem_addr B e j)))
                        (BLOCK_SIZE * iters)).
  { intros [g a b tr].
    pose proof (Partitioned_loop_run A B blockIdx g a b tr) as Hrun.
    cbv zeta in Hrun. destruct Hrun as (Hm & _ & _ & Hv).
    rewrite Hty, Htx, idiv_nonneg in * by assumption. split.
    - rewrite Hm. fold iters. lia.
    - rewrite Hv by assumption. cbn [gmem].
      now apply Partitioned_Cvalue_partial. }
  split; [apply Hval|]. split; [apply Hval|].
  intros s2 Hs2. rewrite (proj2 (Hval s2)), (proj2 (Hval s)).
  unfold sum_lr. apply fold_left_ext_in. intros e acc He. apply in_range in He.
  destruct (Hs2 e He) as (-> & ->). reflexivity.
Qed.

Lemma dense_index (M : Matrix) (r c : Z) :
  view_ok M -> 0 <= r < height M -> 0 <= c < width M ->
  ptr_add (elements M) (iadd (imul r (width M)) c) = dense_addr M r c.
Proof.
  unfold view_ok, INT_MAX. intros (Hw & Hh & Hs & Hrange) Hr Hc.
  unfold dense_addr. rewrite elem_index_exact. f_equal.
  apply to_int_small. unfold INT_MIN, INT_MAX. nia.
Qed.

(** C9, as the code has it.  Inside valid views, every access of a block of
    the tiled kernel is a read of an element of [A] or [B] or a write of an
    element of [C] at [data[r * stride + c]], and the tile that
    [GetSubMatrix] returns starts at the element its block indices name.
    The direct kernel computes [r * width + c] instead: its thread reads
    [A] and [B] and writes [C] at rows [width] elements apart, which is the
    layout rule for the descriptors with [stride = width]. *)
Theorem C9_accesses_by_kernel (A B C : Matrix) (b t : dim3) (s : kstate F) :
  let row := dim_y b * BLOCK_SIZE + dim_y t in
  let col := dim_x b * BLOCK_SIZE + dim_x t in
  view_ok A -> view_ok B -> view_ok C -> width A <= height B ->
  0 <= dim_y b -> (dim_y b + 1) * BLOCK_SIZE <= height A ->
  (dim_y b + 1) * BLOCK_SIZE <= height C ->
  0 <= dim_x b -> (dim_x b + 1) * BLOCK_SIZE <= width B ->
  (dim_x b + 1) * BLOCK_SIZE <= width C ->
  0 <= dim_y t < BLOCK_SIZE -> 0 <= dim_x t < BLOCK_SIZE ->
  (exists new,
      trace (snd (MatMulKernelPartitioned A B C b dimBlock16 s)) = trace s ++ new
      /\ Forall (layout_access A B C) new)
  /\ elements (Asub C (dim_y b) (dim_x b))
     = elem_addr C (dim_y b * BLOCK_SIZE) (dim_x b * BLOCK_SIZE)
  /\ trace (snd (MatMulKernelGeneral A B C b dimBlock16 t s))
     = trace s
       ++ flat_map (fun e => [Rd (dense_addr A row e); Rd (dense_addr B e col)])
                   (range (width A))
       ++ [Wr (dense_addr C row col)]
  /\ forall M r c, stride M = width M -> dense_addr M r c = elem_addr M r c.
Proof.
  intros row col HA HB HC Hab Hby HbyA HbyC Hbx HbxB HbxC Hty Htx.
  assert (Hiy : to_int (dim_y b) = dim_y b).
  { apply to_int_small. destruct HA as (? & ? & ? & ? & ?).
    unfold INT_MIN, INT_MAX, BLOCK_SIZE in *. lia. }
  assert (Hix : to_int (dim_x b) = dim_x b).
  { apply to_int_small. destruct HB as (? & ? & ? & ? & ?).
    unfold INT_MIN, INT_MAX, BLOCK_SIZE in *. lia. }
  assert (HwA : 0 <= width A <= INT_MAX).
  { destruct HA as (? & ? & ? & ? & ?). lia. }
  destruct s as [g a b' tr]. split; [|split; [|split]].
  - pose proof (Partitioned_run A B C b g a b' tr) as Hrun. cbv zeta in Hrun.
    destruct Hrun as (_ & Htr). rewrite Hiy, Hix, idiv_nonneg in Htr by assumption.
    eexists. split; [exact Htr|].
    apply Forall_app. split.
    + apply Forall_forall. intros x Hx.
      apply in_flat_map in Hx as (m & Hm & Hx). apply in_range in Hm.
      apply in_flat_map in Hx as (t' & Ht' & Hx).
      apply in_dim3_indices in Ht'. cbn [dimBlock16 dim_x dim_y] in Ht'.
      assert (Hm' : (m + 1) * BLOCK_SIZE <= width A).
      { pose proof (Z.mul_div_le (width A) BLOCK_SIZE ltac:(unfold BLOCK_SIZE; lia)).
        unfold BLOCK_SIZE in *. lia. }
      unfold load_accesses in Hx.
      rewrite !int_elem_addr_Tile in Hx by (try assumption; lia).
      destruct Hx as [<-|[<-|[]]]; cbn [layout_access]; [left|right];
        eexists; eexists; (split; [|reflexivity]);
        unfold inside, BLOCK_SIZE in *; lia.
    + apply Forall_forall. intros x Hx.
      apply in_map_iff in Hx as (t' & <- & Ht').
      apply in_dim3_indices in Ht'. cbn [dimBlock16 dim_x dim_y] in Ht'.
      rewrite int_elem_addr_Tile by (try assumption; lia).
      cbn [layout_access]. eexists; eexists; (split; [|reflexivity]).
      unfold inside, BLOCK_SIZE in *. lia.
  - rewrite Asub_Tile by assumption. reflexivity.
  - rewrite General_run. cbn [snd trace dimBlock16 dim_x dim_y]. fold row col.
    assert (Hrow : to_int row = row).
    { apply to_int_small. destruct HA as (? & ? & ? & ? & ?).
      unfold row, INT_MIN, INT_MAX, BLOCK_SIZE in *. lia. }
    assert (Hcol : to_int col = col).
    { apply to_int_small. destruct HB as (? & ? & ? & ? & ?).
      unfold col, INT_MIN, INT_MAX, BLOCK_SIZE in *. lia. }
    rewrite Hrow, Hcol.
    rewrite (@dense_index C) by (try assumption; unfold row, col, BLOCK_SIZE in *; lia).
    do 2 f_equal. apply flat_map_in_ext. intros e He. apply in_range in He.
    rewrite !dense_index by (try assumption; unfold row, col, BLOCK_SIZE in *; lia).
    reflexivity.
  - intros M r c HM. unfold dense_addr, elem_addr. now rewrite HM.
Qed.


(** * The host routine on every path *)

Lemma cudaMemcpyHostToDevice_fields (dst src : ptr) (size : Z) (st : state F) :
  host (cudaMemcpyHostToDevice dst src size st) = host st
  /\ live (cudaMemcpyHostToDevice dst src size st) = live st
  /\ capacity (cudaMemcpyHostToDevice dst src size st) = capacity st
  /\ launch_ok (cudaMemcpyHostToDevice dst src size st) = launch_ok st
  /\ events (cudaMemcpyHostToDevice dst src size st) = events st.
Proof. repeat split. Qed.

Lemma cudaLaunch_fields (k : kernel) (g b : dim3) (A B C : Matrix) (st : state F) :
  host (cudaLaunch k g b A B C st) = host st
  /\ live (cudaLaunch k g b A B C st) = live st
  /\ capacity (cudaLaunch k g b A B C st) = capacity st
  /\ launch_ok (cudaLaunch k g b A B C st) = launch_ok st
  /\ events (cudaLaunch k g b A B C st) = events st ++ [EvLaunch k g b].
Proof. repeat split. Qed.

(** The three allocations of [MatMul], then the launch, seen from the
    fields the later steps read. *)
Lemma MatMul_steps (A B C : Matrix) (general : bool) (u : uninitialised) (st : state F) :
  exists (pA pB pC : ptr) (st4 : state F) (l1 l2 : list (Z * Z)),
    MatMul A B C general u st
    = cudaFree pC (cudaFree pB (cudaFree pA
        (cudaMemcpyDeviceToHost (elements C) pC (byte_size C) st4)))
    /\ host st4 = host st /\ capacity st4 = capacity st /\ launch_ok st4 = launch_ok st
    /\ ((pA = {| blk := fresh (live st); off := 0 |}
         /\ l1 = (fresh (live st), byte_size A) :: live st)
        \/ (pA = junk_A u /\ l1 = live st))
    /\ ((pB = {| blk := fresh l1; off := 0 |} /\ l2 = (fresh l1, byte_size B) :: l1)
        \/ (pB = junk_B u /\ l2 = l1))
    /\ ((pC = {| blk := fresh l2; off := 0 |}
         /\ live st4 = (fresh l2, byte_size C) :: l2)
        \/ (pC = junk_C u /\ live st4 = l2)).
Proof.
  unfold MatMul.
  pose proof (cudaMalloc_cases (junk_A u) (byte_size A) st) as HA.
  destruct (cudaMalloc (junk_A u) (byte_size A) st) as [pA st1].
  cbn [fst snd elements] in *. destruct HA as (Hh1 & Hd1 & Hc1 & Hl1 & HA).
  set (st1' := cudaMemcpyHostToDevice pA (elements A) (byte_size A) st1).
  pose proof (cudaMalloc_cases (junk_B u) (byte_size B) st1') as HB.
  destruct (cudaMalloc (junk_B u) (byte_size B) st1') as [pB st2].
  cbn [fst snd elements] in *. destruct HB as (Hh2 & Hd2 & Hc2 & Hl2 & HB).
  set (st2' := cudaMemcpyHostToDevice pB (elements B) (byte_size B) st2).
  pose proof (cudaMalloc_cases (junk_C u) (byte_size C) st2') as HC.
  destruct (cudaMalloc (junk_C u) (byte_size C) st2') as [pC st3].
  cbn [fst snd elements] in *. destruct HC as (Hh3 & Hd3 & Hc3 & Hl3 & HC).
  match goal with
  | |- context [if general then ?x else ?y] => set (st4 := if general then x else y)
  end.
  exists pA, pB, pC, st4, (live st1), (live st2).
  assert (Hst4 : host st4 = host st3 /\ capacity st4 = capacity st3
                 /\ launch_ok st4 = launch_ok st3 /\ live st4 = live st3).
  { unfold st4. destruct general; repeat split. }
  destruct Hst4 as (E1 & E2 & E3 & E4).
  split; [reflexivity|].
  split; [exact (eq_trans E1 (eq_trans Hh3 (eq_trans Hh2 Hh1)))|].
  split; [exact (eq_trans E2 (eq_trans Hc3 (eq_trans Hc2 Hc1)))|].
  split; [exact (eq_trans E3 (eq_trans Hl3 (eq_trans Hl2 Hl1)))|].
  split; [exact HA|]. split; [exact HB|]. rewrite E4. exact HC.
Qed.

Lemma MatMul_frame (A B C : Matrix) (general : bool) (u : uninitialised) (st : state F) :
  capacity (MatMul A B C general u st) = capacity st
  /\ launch_ok (MatMul A B C general u st) = launch_ok st
  /\ exists (g : memory F) (p : ptr),
      host (MatMul A B C general u st)
      = copy (host st) g (elements C) p (byte_size C / sizeof_float).
Proof.
  destruct (MatMul_steps A B C general u st)
    as (pA & pB & pC & st4 & l1 & l2 & -> & Hh & Hc & Hl & _).
  repeat rewrite (proj1 (cudaFree_fields _ _)).
  repeat rewrite (proj1 (proj2 (proj2 (cudaFree_fields _ _)))).
  repeat rewrite (proj2 (proj2 (proj2 (cudaFree_fields _ _)))).
  unfold cudaMemcpyDeviceToHost. cbn [host capacity launch_ok].
  rewrite Hh. repeat split; auto. eexists; eexists; reflexivity.
Qed.


Lemma launched_kernels_app (l1 l2 : list event) :
  launched_kernels (l1 ++ l2) = launched_kernels l1 ++ launched_kernels l2.
Proof. apply flat_map_app. Qed.

Lemma cudaMalloc_kernels (p : ptr) (size : Z) (st : state F) :
  launched_kernels (events (snd (cudaMalloc p size st))) = launched_kernels (events st).
Proof.
  unfold cudaMalloc. destruct (used (live st) + size <=? capacity st);
    cbn [snd events]; rewrite launched_kernels_app; cbn; apply app_nil_r.
Qed.

Lemma cudaFree_kernels (p : ptr) (st : state F) :
  launched_kernels (events (cudaFree p st)) = launched_kernels (events st).
Proof.
  unfold cudaFree. destruct ((off p =? 0) && is_live (blk p) (live st));
    cbn [events]; rewrite launched_kernels_app; cbn; apply app_nil_r.
Qed.

Lemma MatMul_kernels (A B C : Matrix) (general : bool) (u : uninitialised) (st : state F) :
  launched_kernels (events (MatMul A B C general u st))
  = launched_kernels (events st)
    ++ [if general then KernelGeneral else KernelPartitioned].
Proof.
  unfold MatMul.
  pose proof (cudaMalloc_kernels (junk_A u) (byte_size A) st) as HA.
  destruct (cudaMalloc (junk_A u) (byte_size A) st) as [pA st1].
  cbn [fst snd elements] in *.
  set (st1' := cudaMemcpyHostToDevice pA (elements A) (byte_size A) st1).
  pose proof (cudaMalloc_kernels (junk_B u) (byte_size B) st1') as HB.
  destruct (cudaMalloc (junk_B u) (byte_size B) st1') as [pB st2].
  cbn [fst snd elements] in *.
  set (st2' := cudaMemcpyHostToDevice pB (elements B) (byte_size B) st2).
  pose proof (cudaMalloc_kernels (junk_C u) (byte_size C) st2') as HC.
  destruct (cudaMalloc (junk_C u) (byte_size C) st2') as [pC st3].
  cbn [fst snd elements] in *.
  rewrite !cudaFree_kernels. unfold cudaMemcpyDeviceToHost. cbn [events].
  assert (E : launched_kernels (events st3) = launched_kernels (events st))
    by exact (eq_trans HC (eq_trans HB HA)).
  destruct general; unfold cudaLaunch; cbn [events];
    rewrite launched_kernels_app, E; reflexivity.
Qed.

(** ** The pool on every path *)

Lemma released_fresh (h : Z) (l : list (Z * Z)) (hb : Z * Z) :
  In hb l -> fresh l <= h -> released {| blk := h; off := 0 |} hb = false.
Proof.
  intros Hin Hh. pose proof (fresh_not_in l hb Hin). unfold released. cbn [off blk].
  destruct (Z.eqb_spec (fst hb) h); [lia | reflexivity].
Qed.

Lemma released_harmless (p : ptr) (l : list (Z * Z)) (hb : Z * Z) :
  harmless l p -> In hb l -> released p hb = false.
Proof.
  intros [Hoff|Hnot] Hin; unfold released.
  - destruct (Z.eqb_spec (off p) 0); [contradiction | reflexivity].
  - destruct (Z.eqb_spec (fst hb) (blk p)) as [Heq|]; [|apply andb_false_r].
    exfalso. apply Hnot. rewrite <- Heq. now apply in_map.
Qed.

Lemma released_self (h size : Z) : released {| blk := h; off := 0 |} (h, size) = true.
Proof. unfold released. cbn [off blk fst]. now rewrite !Z.eqb_refl. Qed.

(** Three releases in a row take the entries that one of them names. *)
Lemma release_three (pA pB pC : ptr) (new l0 : list (Z * Z)) :
  (forall hb, In hb new ->
              released pA hb = true \/ released pB hb = true \/ released pC hb = true) ->
  (forall hb, In hb l0 ->
              released pA hb = false /\ released pB hb = false /\ released pC hb = false) ->
  filter (fun hb => negb (released pC hb))
         (filter (fun hb => negb (released pB hb))
                 (filter (fun hb => negb (released pA hb)) (new ++ l0)))
  = l0.
Proof.
  intros Hnew Hl0. induction new as [|x new IH]; cbn [app].
  - rewrite (@filter_all _ (fun hb => negb (released pA hb)) l0),
            (@filter_all _ (fun hb => negb (released pB hb)) l0),
            (@filter_all _ (fun hb => negb (released pC hb)) l0);
      [reflexivity | | |]; intros hb Hhb;
      destruct (Hl0 hb Hhb) as (EA & EB & EC); rewrite ?EA, ?EB, ?EC; reflexivity.
  - assert (IH' := IH (fun hb Hhb => Hnew hb (or_intror Hhb))).
    cbn [filter].
    destruct (released pA x) eqn:EA; cbn [negb]; [exact IH'|].
    cbn [filter].
    destruct (released pB x) eqn:EB; cbn [negb]; [exact IH'|].
    cbn [filter].
    destruct (released pC x) eqn:EC; cbn [negb]; [exact IH'|].
    destruct (Hnew x (or_introl eq_refl)) as [E|[E|E]]; congruence.
Qed.

Lemma fresh_mono (h size : Z) (l : list (Z * Z)) : fresh l <= fresh ((h, size) :: l).
Proof. unfold fresh, handles. cbn [map fold_right fst]. lia. Qed.

Lemma MatMul_live_any (A B C : Matrix) (general : bool) (u : uninitialised) (st : state F) :
  junk_harmless u (live st) ->
  live (MatMul A B C general u st) = live st.
Proof.
  intros (JA & JB & JC).
  destruct (MatMul_steps A B C general u st)
    as (pA & pB & pC & st4 & l1 & l2 & -> & _ & _ & _ & HA & HB & HC).
  rewrite !cudaFree_live. unfold cudaMemcpyDeviceToHost. cbn [live].
  set (l0 := live st) in *.
  assert (H1 : exists n1, l1 = n1 ++ l0
                /\ (forall hb, In hb n1 -> released pA hb = true)
                /\ (forall hb, In hb l0 -> released pA hb = false)
                /\ fresh l0 <= fresh l1).
  { destruct HA as [(-> & ->)|(-> & ->)].
    - exists [(fresh l0, byte_size A)]. split; [reflexivity|]. split; [|split].
      + intros hb [<-|[]]. apply released_self.
      + intros hb Hhb. now apply released_fresh with (l := l0); [|lia].
      + apply fresh_mono.
    - exists []. split; [reflexivity|]. split; [|split].
      + intros hb [].
      + intros hb Hhb. now apply released_harmless with (l := l0).
      + lia. }
  destruct H1 as (n1 & -> & HnA & HlA & Hf1).
  assert (H2 : exists n2, l2 = n2 ++ l0
                /\ (forall hb, In hb n2 -> released pA hb = true \/ released pB hb = true)
                /\ (forall hb, In hb l0 -> released pB hb = false)
                /\ fresh l0 <= fresh l2).
  { destruct HB as [(-> & ->)|(-> & ->)].
    - exists ((fresh (n1 ++ l0), byte_size B) :: n1). split; [reflexivity|].
      split; [|split].
      + intros hb [<-|Hhb]; [right; apply released_self | left; now apply HnA].
      + intros hb Hhb. now apply released_fresh with (l := l0); [|lia].
      + pose proof (fresh_mono (fresh (n1 ++ l0)) (byte_size B) (n1 ++ l0)). lia.
    - exists n1. split; [reflexivity|]. split; [|split].
      + intros hb Hhb. left. now apply HnA.
      + intros hb Hhb. now apply released_harmless with (l := l0).
      + lia. }
  destruct H2 as (n2 & -> & HnB & HlB & Hf2).
  assert (H3 : exists n3, live st4 = n3 ++ l0
                /\ (forall hb, In hb n3 -> released pA hb = true
                                           \/ released pB hb = true
                                           \/ released pC hb = true)
                /\ (forall hb, In hb l0 -> released pC hb = false)).
  { destruct HC as [(-> & ->)|(-> & ->)].
    - exists ((fresh (n2 ++ l0), byte_size C) :: n2). split; [reflexivity|]. split.
      + intros hb [<-|Hhb]; [right; right; apply released_self|].
        destruct (HnB hb Hhb); auto.
      + intros hb Hhb. now apply released_fresh with (l := l0); [|lia].
    - exists n2. split; [reflexivity|]. split.
      + intros hb Hhb. destruct (HnB hb Hhb); auto.
      + intros hb Hhb. now apply released_harmless with (l := l0). }
  destruct H3 as (n3 & -> & HnC & HlC).
  apply release_three; [exact HnC|].
  intros hb Hhb. repeat split; auto.
Qed.

Lemma used_app (l1 l2 : list (Z * Z)) : used (l1 ++ l2) = used l1 + used l2.
Proof.
  unfold used. induction l1 as [|x l1 IH]; cbn [app fold_right]; [reflexivity|].
  rewrite IH. lia.
Qed.

(** A call that fits, or whose unset pointers are harmless, leaves the pool
    as it found it. *)
Lemma MatMul_live (A B C : Matrix) (general : bool) (u : uninitialised) (st : state F) :
  fits A B C (live st) (capacity st) \/ junk_harmless u (live st) ->
  live (MatMul A B C general u st) = live st.
Proof.
  intros [Hfit|Hjunk].
  - now destruct (@MatMul_fits A B C general u st Hfit) as (_ & _ & Hl & _).
  - now apply MatMul_live_any.
Qed.

(** * The host routine against the specification *)

Lemma in_buffer_elem (M : Matrix) (i j : Z) :
  full_matrix M -> inside M i j -> in_buffer M (elem_addr M i j).
Proof.
  intros ((Hw & Hh & Hs & Hrange) & Hfull) (Hi & Hj).
  unfold in_buffer, elem_addr, ptr_add. cbn [blk off]. rewrite Hfull in *.
  split; [reflexivity | nia].
Qed.

Lemma in_buffer_cell (M : Matrix) (q : ptr) :
  full_matrix M -> in_buffer M q ->
  exists i j, inside M i j /\ q = elem_addr M i j.
Proof.
  intros ((Hw & Hh & Hs & Hrange) & Hfull) (Hb & Ho).
  set (d := off q - off (elements M)).
  assert (Hd : 0 <= d < width M * height M) by (unfold d; lia).
  assert (Hpos : 0 < width M) by nia.
  exists (d / width M), (d mod width M).
  pose proof (Z.div_mod d (width M) ltac:(lia)) as Hdm.
  pose proof (Z.mod_pos_bound d (width M) Hpos) as Hm.
  assert (Hq : 0 <= d / width M) by (apply Z.div_pos; lia).
  assert (Hq' : d / width M < height M).
  { apply Z.div_lt_upper_bound; lia. }
  split; [unfold inside; lia|].
  unfold elem_addr, ptr_add. rewrite Hfull. destruct q as [qb qo].
  cbn [blk off] in *. f_equal; [assumption|]. unfold d in *. cbn [off] in *. lia.
Qed.

(** C2.  For matrices that satisfy the dimension invariant (the square
    ones whose side is a multiple of [BLOCK_SIZE] among them), [MatMul] with
    the tiled kernel and [MatMul] with the direct kernel, started in the
    same state with the three allocations succeeding, leave the same float
    at every address of the host memory, so bit for bit the same [C]; when
    the launch is carried out, each element of [C] is, for both strategies,
    the one left-to-right sum over the contraction index.  No property of
    the float addition or multiplication is used. *)
Theorem C2_strategies_agree (A B C : Matrix) (u : uninitialised) (st : state F)
        (q : ptr) :
  dimension_invariant A B C ->
  fits A B C (live st) (capacity st) ->
  host (MatMul A B C false u st) q = host (MatMul A B C true u st) q
  /\ (launch_ok st = true -> in_buffer C q ->
      exists i j, inside C i j /\ q = elem_addr C i j
                  /\ host (MatMul A B C false u st) q = product_elem (host st) A B i j
                  /\ host (MatMul A B C true u st) q = product_elem (host st) A B i j).
Proof.
  intros Hdim Hfit.
  assert (HC : full_matrix C) by apply Hdim.
  assert (Hcases : in_buffer C q \/ ~ in_buffer C q) by (unfold in_buffer; lia).
  destruct (@MatMul_fits A B C false u st Hfit) as (Hf & _).
  destruct (@MatMul_fits A B C true u st Hfit) as (Ht & _).
  cbv zeta in Hf, Ht.
  assert (Hin : in_buffer C q ->
            exists i j, inside C i j /\ q = elem_addr C i j
              /\ (launch_ok st = true ->
                  host (MatMul A B C false u st) q = product_elem (host st) A B i j
                  /\ host (MatMul A B C true u st) q = product_elem (host st) A B i j)).
  { intros Hq. destruct (in_buffer_cell HC Hq) as (i & j & Hij & ->).
    exists i, j. split; [assumption|]. split; [reflexivity|]. intros Hok.
    split; now apply MatMul_result. }
  split.
  - destruct Hcases as [Hq|Hq].
    + destruct (launch_ok st) eqn:Hok.
      * destruct (Hin Hq) as (i & j & _ & _ & Hboth).
        destruct (Hboth eq_refl) as (-> & ->). reflexivity.
      * rewrite Hf, Ht. unfold launched. rewrite Hok. reflexivity.
    + rewrite Hf, Ht. rewrite (byte_size_full HC).
      rewrite !copy_out; [reflexivity | |]; unfold in_buffer in Hq; lia.
  - intros Hok Hq. destruct (Hin Hq) as (i & j & Hij & Heq & Hboth).
    exists i, j. destruct (Hboth Hok). auto.
Qed.

(** C4, as the code has it.  The flag of [MatMul] is named [general]:
    [MatMul] launches one kernel, [MatMulKernelGeneral] (the direct kernel)
    when the flag is [true] and [MatMulKernelPartitioned] (the tiled
    kernel) when it is [false], on every path. *)
Theorem C4_flag_selects_kernel (A B C : Matrix) (general : bool) (u : uninitialised)
        (st : state F) :
  launched_kernels (events (MatMul A B C general u st))
  = launched_kernels (events st)
    ++ [if general then KernelGeneral else KernelPartitioned].
Proof. apply MatMul_kernels. Qed.

(** ** Allocations and releases in the log *)







(** C7.  [MatMul] changes the host memory only inside the buffer of [C]:
    every other address holds after the call what it held before, on every
    path; so do the elements of a full matrix whose buffer does not meet
    the buffer of [C], as [A] and [B].  The descriptors are passed by
    value and [MatMul] assigns none of their fields.  The accelerator
    buffers of a call that fits are gone when it returns. *)
Theorem C7_only_C_changes (A B C : Matrix) (general : bool) (u : uninitialised)
        (st : state F) :
  full_matrix C ->
  (forall q, ~ in_buffer C q -> host (MatMul A B C general u st) q = host st q)
  /\ (forall M i j,
         full_matrix M -> inside M i j ->
         (forall q, in_buffer M q -> ~ in_buffer C q) ->
         host (MatMul A B C general u st) (elem_addr M i j) = host st (elem_addr M i j))
  /\ (fits A B C (live st) (capacity st) -> live (MatMul A B C general u st) = live st).
Proof.
  intros HC.
  assert (Hframe : forall q, ~ in_buffer C q ->
            host (MatMul A B C general u st) q = host st q).
  { intros q Hq. destruct (MatMul_frame A B C general u st) as (_ & _ & g & p & ->).
    rewrite (byte_size_full HC). apply copy_out. unfold in_buffer in Hq. lia. }
  split; [exact Hframe|]. split.
  - intros M i j HM Hij Hdisj. apply Hframe, Hdisj. now apply in_buffer_elem.
  - intros Hfit. apply MatMul_live. now left.
Qed.

(** C10.  Two calls of [MatMul] with the same descriptors and the same
    flag, on host memories that hold the same elements of [A] and of [B]
    and anything else elsewhere (the old contents of [C], the accelerator
    memory and the unset pointers may all differ), leave the same elements
    in [C]: every element of [C] is overwritten with the left-to-right sum
    over the elements of [A] and [B]. *)
Theorem C10_result_depends_on_A_B (A B C : Matrix) (general : bool)
        (u1 u2 : uninitialised) (st1 st2 : state F) (i j : Z) :
  dimension_invariant A B C ->
  fits A B C (live st1) (capacity st1) -> fits A B C (live st2) (capacity st2) ->
  launch_ok st1 = true -> launch_ok st2 = true ->
  (forall r e, inside A r e -> host st1 (elem_addr A r e) = host st2 (elem_addr A r e)) ->
  (forall e c, inside B e c -> host st1 (elem_addr B e c) = host st2 (elem_addr B e c)) ->
  inside C i j ->
  host (MatMul A B C general u1 st1) (elem_addr C i j)
  = host (MatMul A B C general u2 st2) (elem_addr C i j)
  /\ host (MatMul A B C general u1 st1) (elem_addr C i j)
     = product_elem (host st1) A B i j.
Proof.
  intros Hdim Hf1 Hf2 Hok1 Hok2 HAeq HBeq Hij.
  rewrite !MatMul_result by assumption. split; [|reflexivity].
  destruct Hdim as (HA & HB & HC & HwA & HhA & HwB & HwC & HhC & Hab & Hac & Hbc).
  destruct Hij as (Hi & Hj).
  unfold product_elem, sum_lr. apply fold_left_ext_in. intros e acc He.
  apply in_range in He.
  rewrite HAeq, HBeq by (unfold inside; lia). reflexivity.
Qed.


(** * More on the kernels *)

(** X1.  Under the dimension invariant, with [A], [B] and [C] in buffers of
    their own, the direct kernel launched on the grid of [MatMul] writes to
    every element [(i, j)] of [C] the left-to-right sum of
    [A(i, e) * B(e, j)] over [e = 0 .. A.width - 1], and leaves every
    address outside the buffer of [C] as it was. *)
Theorem X1_direct_kernel_product (A B C : Matrix) (s : kstate F) :
  dimension_invariant A B C ->
  blk (elements A) <> blk (elements C) ->
  blk (elements B) <> blk (elements C) ->
  (forall i j, inside C i j ->
     gmem (snd (launch KernelGeneral (dimGrid_of A B) dimBlock16 A B C s)) (elem_addr C i j)
     = sum_lr (fun e => fmul (gmem s (elem_addr A i e)) (gmem s (elem_addr B e j)))
              (width A))
  /\ (forall q, blk q <> blk (elements C) ->
        gmem (snd (launch KernelGeneral (dimGrid_of A B) dimBlock16 A B C s)) q
        = gmem s q).
Proof.
  intros Hdim HAC HBC.
  destruct (@launch_correct KernelGeneral A B C s Hdim HAC HBC) as (Hoff & Hcell).
  split; [exact Hcell | exact Hoff].
Qed.

Lemma launch_blocks_correct (k : kernel) (A B C : Matrix) (blocks : list dim3)
      (s : kstate F) :
  dimension_invariant A B C ->
  blk (elements A) <> blk (elements C) ->
  blk (elements B) <> blk (elements C) ->
  (forall b, In b blocks -> In b (dim3_indices (dimGrid_of A B))) ->
  same_off C (gmem s) (snd (launch_blocks k blocks dimBlock16 A B C s))
  /\ (forall i j, inside C i j ->
        (exists b, In b blocks /\ block_owns b i j) ->
        cell C (snd (launch_blocks k blocks dimBlock16 A B C s)) i j
        = product_elem (gmem s) A B i j)
  /\ (forall i j, inside C i j ->
        (forall b, In b blocks -> ~ block_owns b i j) ->
        cell C (snd (launch_blocks k blocks dimBlock16 A B C s)) i j = cell C s i j).
Proof.
  intros Hdim HAC HBC Hblocks.
  assert (Hs : same_off C (gmem s) s) by (intros p _; reflexivity).
  destruct k; unfold launch_blocks; rewrite each_K_fold; cbn [snd].
  - apply (@writers_fold dim3
             (fun b s => snd (each_K (MatMulKernelGeneral A B C b dimBlock16)
                                     (dim3_indices dimBlock16) s))
             (same_off C (gmem s)) (cell C) (product_elem (gmem s) A B) (inside C)
             block_owns (fun b => In b (dim3_indices (dimGrid_of A B)))
             block_owns_dec
             ltac:(intros b s0 Hb Hs0; cbv beta in *;
                   apply (@General_block A B C (gmem s) b s0 Hdim HAC HBC Hb Hs0))
             ltac:(intros b s0 i j Hb Hs0 Hin Ho; cbv beta in *;
                   now apply (@General_block A B C (gmem s) b s0 Hdim HAC HBC Hb Hs0))
             ltac:(intros b s0 i j Hb Hs0 Hin Ho; cbv beta in *;
                   now apply (@General_block A B C (gmem s) b s0 Hdim HAC HBC Hb Hs0))
             blocks s Hblocks Hs).
  - apply (@writers_fold dim3
             (fun b s => snd (MatMulKernelPartitioned A B C b dimBlock16 s))
             (same_off C (gmem s)) (cell C) (product_elem (gmem s) A B) (inside C)
             block_owns (fun b => In b (dim3_indices (dimGrid_of A B)))
             block_owns_dec
             ltac:(intros b s0 Hb Hs0; cbv beta in *;
                   apply (@Partitioned_block A B C (gmem s) b s0 Hdim HAC HBC Hb Hs0))
             ltac:(intros b s0 i j Hb Hs0 Hin Ho; cbv beta in *;
                   now apply (@Partitioned_block A B C (gmem s) b s0 Hdim HAC HBC Hb Hs0))
             ltac:(intros b s0 i j Hb Hs0 Hin Ho; cbv beta in *;
                   now apply (@Partitioned_block A B C (gmem s) b s0 Hdim HAC HBC Hb Hs0))
             blocks s Hblocks Hs).
Qed.

Lemma grid_covers (A B C : Matrix) (i j : Z) :
  dimension_invariant A B C -> inside C i j ->
  exists b, In b (dim3_indices (dimGrid_of A B)) /\ block_owns b i j.
Proof.
  intros Hdim (Hi & Hj).
  destruct Hdim as (HA & HB & HC & HwA & HhA & HwB & HwC & HhC & Hab & Hac & Hbc).
  exists {| dim_x := j / BLOCK_SIZE; dim_y := i / BLOCK_SIZE |}.
  apply multiple_div in HhA, HwB.
  pose proof (Z.div_mod i BLOCK_SIZE ltac:(unfold BLOCK_SIZE; lia)).
  pose proof (Z.div_mod j BLOCK_SIZE ltac:(unfold BLOCK_SIZE; lia)).
  pose proof (Z.mod_pos_bound i BLOCK_SIZE ltac:(unfold BLOCK_SIZE; lia)).
  pose proof (Z.mod_pos_bound j BLOCK_SIZE ltac:(unfold BLOCK_SIZE; lia)).
  split.
  - apply in_dim3_indices. unfold dimGrid_of. cbn [dim_x dim_y].
    unfold BLOCK_SIZE in *. lia.
  - unfold block_owns. cbn [dim_x dim_y]. unfold BLOCK_SIZE in *. lia.
Qed.

(** X2.  The blocks of a launch do not depend on one another: run one
    after the other in any order that has every block of the grid at least
    once and no other block, both kernels write the same product to [C]
    as in the order of [launch]. *)
Theorem X2_block_order_irrelevant (k : kernel) (A B C : Matrix) (blocks : list dim3)
        (s : kstate F) (i j : Z) :
  dimension_invariant A B C ->
  blk (elements A) <> blk (elements C) ->
  blk (elements B) <> blk (elements C) ->
  (forall b, In b blocks <-> In b (dim3_indices (dimGrid_of A B))) ->
  inside C i j ->
  gmem (snd (launch_blocks k blocks dimBlock16 A B C s)) (elem_addr C i j)
  = gmem (snd (launch k (dimGrid_of A B) dimBlock16 A B C s)) (elem_addr C i j).
Proof.
  intros Hdim HAC HBC Hblocks Hij.
  destruct (@launch_correct k A B C s Hdim HAC HBC) as (_ & Hcell).
  unfold cell in Hcell. rewrite (Hcell i j Hij).
  destruct (@launch_blocks_correct k A B C blocks s Hdim HAC HBC) as (_ & Hown & _).
  { intros b Hb. now apply Hblocks. }
  unfold cell in Hown. apply Hown; [assumption|].
  destruct (@grid_covers A B C i j Hdim Hij) as (b & Hb & Ho).
  exists b. split; [now apply Hblocks | assumption].
Qed.


(** X3.  Inside one phase of the tiled kernel the order of the threads of
    the block is irrelevant: whatever the order in which the threads of a
    [BLOCK_SIZE] x [BLOCK_SIZE] block do their loads and then their
    multiplications in an iteration [m], every thread ends the iteration
    with the same [Cvalue], and the global memory is not written. *)
Theorem X3_thread_order_irrelevant (A B : Matrix) (blockRow blockCol m : Z)
        (l1 l2 : list dim3) (Cvalue : tile F) (s : kstate F) (row col : Z) :
  small_indices l1 -> NoDup l1 -> covers_block l1 ->
  small_indices l2 -> NoDup l2 -> covers_block l2 ->
  0 <= row < BLOCK_SIZE -> 0 <= col < BLOCK_SIZE ->
  fst (Partitioned_iteration A B blockRow blockCol l1 m Cvalue s) row col
  = fst (Partitioned_iteration A B blockRow blockCol l2 m Cvalue s) row col
  /\ gmem (snd (Partitioned_iteration A B blockRow blockCol l1 m Cvalue s)) = gmem s.
Proof.
  intros Hs1 Hn1 Hc1 Hs2 Hn2 Hc2 Hrow Hcol. destruct s as [g a b tr].
  rewrite !iteration_run by assumption. cbn [fst snd gmem].
  split; [|reflexivity].
  rewrite !remap_at by (try assumption; (apply Hc1 || apply Hc2); assumption).
  rewrite !mac_value_filled by assumption. reflexivity.
Qed.

(** X5.  A block of the tiled kernel never uses what the shared tiles held
    before it ran: started with the same global memory, it leaves the same
    global memory whatever the shared tiles and the accesses recorded so
    far; every shared cell it reads was written in the same iteration. *)
Theorem X5_shared_tiles_start_unread (A B C : Matrix) (blockIdx : dim3)
        (g : memory F) (a1 b1 a2 b2 : tile F) (tr1 tr2 : list access) :
  gmem (snd (MatMulKernelPartitioned A B C blockIdx dimBlock16
               {| gmem := g; shAs := a1; shBs := b1; trace := tr1 |}))
  = gmem (snd (MatMulKernelPartitioned A B C blockIdx dimBlock16
                 {| gmem := g; shAs := a2; shBs := b2; trace := tr2 |})).
Proof.
  destruct (Partitioned_run A B C blockIdx g a1 b1 tr1) as (-> & _).
  destruct (Partitioned_run A B C blockIdx g a2 b2 tr2) as (-> & _).
  reflexivity.
Qed.

Lemma count_reads_app (l1 l2 : list access) :
  count_reads (l1 ++ l2) = count_reads l1 + count_reads l2.
Proof. unfold count_reads. rewrite filter_app, length_app. lia. Qed.

Lemma count_writes_app (l1 l2 : list access) :
  count_writes (l1 ++ l2) = count_writes l1 + count_writes l2.
Proof. unfold count_writes. rewrite filter_app, length_app. lia. Qed.

Lemma count_flat_map (T : Type) (count : list access -> Z) (f : T -> list access) (n : Z) :
  count [] = 0 ->
  (forall l1 l2, count (l1 ++ l2) = count l1 + count l2) ->
  forall l : list T,
    (forall t, In t l -> count (f t) = n) ->
    count (flat_map f l) = n * Z.of_nat (length l).
Proof.
  intros Hnil Happ l. induction l as [|t l IH]; intros Hf; cbn [flat_map length].
  - rewrite Hnil. lia.
  - rewrite Happ, Hf, IH by (try (now left); intros; apply Hf; now right). lia.
Qed.

Lemma length_dim3_indices (d : dim3) :
  0 <= dim_x d -> 0 <= dim_y d ->
  Z.of_nat (length (dim3_indices d)) = dim_x d * dim_y d.
Proof.
  intros Hx Hy. unfold dim3_indices.
  rewrite <- (length_range Hy) at 2.
  induction (range (dim_y d)) as [|j l IH]; cbn [flat_map length]; [lia|].
  rewrite length_app, length_map, Nat2Z.inj_add, IH, (length_range Hx). lia.
Qed.

(** X4.  What the tiling buys.  A thread of the direct kernel reads global
    memory [2 * A.width] times for its element of [C]; a whole block of the
    tiled kernel, which computes [BLOCK_SIZE * BLOCK_SIZE] elements, reads
    it [2 * BLOCK_SIZE * BLOCK_SIZE * (A.width / BLOCK_SIZE)] times, that is
    [2 * (A.width / BLOCK_SIZE)] times per element.  Either way every
    element of [C] is written once. *)
Theorem X4_global_memory_traffic (A B C : Matrix) (blockIdx threadIdx : dim3)
        (s : kstate F) :
  0 <= width A <= INT_MAX ->
  count_reads (trace (snd (MatMulKernelGeneral A B C blockIdx dimBlock16 threadIdx s)))
  = count_reads (trace s) + 2 * width A
  /\ count_writes (trace (snd (MatMulKernelGeneral A B C blockIdx dimBlock16 threadIdx s)))
     = count_writes (trace s) + 1
  /\ count_reads (trace (snd (MatMulKernelPartitioned A B C blockIdx dimBlock16 s)))
     = count_reads (trace s)
       + 2 * (BLOCK_SIZE * BLOCK_SIZE) * (width A / BLOCK_SIZE)
  /\ count_writes (trace (snd (MatMulKernelPartitioned A B C blockIdx dimBlock16 s)))
     = count_writes (trace s) + BLOCK_SIZE * BLOCK_SIZE.
Proof.
  intros HwA. destruct s as [g a b tr].
  assert (Hthreads : Z.of_nat (length (dim3_indices dimBlock16)) = BLOCK_SIZE * BLOCK_SIZE).
  { apply length_dim3_indices; cbn; unfold BLOCK_SIZE; lia. }
  assert (Hiters : 0 <= width A / BLOCK_SIZE).
  { apply Z.div_pos; [lia | unfold BLOCK_SIZE; lia]. }
  rewrite General_run. cbn [snd trace].
  destruct (Partitioned_run A B C blockIdx g a b tr) as (_ & ->).
  rewrite idiv_nonneg by assumption.
  rewrite !count_reads_app, !count_writes_app.
  rewrite (@count_flat_map Z count_reads _ 2 eq_refl count_reads_app)
    by (intros; reflexivity).
  rewrite (@count_flat_map Z count_writes _ 0 eq_refl count_writes_app)
    by (intros; reflexivity).
  rewrite (@count_flat_map Z count_reads _ (2 * (BLOCK_SIZE * BLOCK_SIZE)) eq_refl
                           count_reads_app).
  2:{ intros m _.
      rewrite (@count_flat_map dim3 count_reads _ 2 eq_refl count_reads_app)
        by (intros; reflexivity).
      rewrite Hthreads. lia. }
  rewrite (@count_flat_map Z count_writes _ 0 eq_refl count_writes_app).
  2:{ intros m _.
      rewrite (@count_flat_map dim3 count_writes _ 0 eq_refl count_writes_app)
        by (intros; reflexivity).
      lia. }
  rewrite !length_range by lia.
  assert (Hmr : forall (f : dim3 -> ptr) l, count_reads (map (fun t => Wr (f t)) l) = 0).
  { intros f l. unfold count_reads. induction l as [|t l IH]; cbn; auto. }
  assert (Hmw : forall (f : dim3 -> ptr) l,
            count_writes (map (fun t => Wr (f t)) l) = Z.of_nat (length l)).
  { intros f l. unfold count_writes. induction l as [|t l IH]; cbn [map filter length];
      [reflexivity|]. cbn [length] in *. lia. }
  rewrite Hmr, Hmw, Hthreads.
  change (count_reads [Wr _]) with 0. change (count_writes [Wr _]) with 1.
  repeat split; lia.
Qed.

(** X6.  The tiles that [GetSubMatrix] cuts out of a valid view do not
    overlap: an address that is element [(r, c)] of the tile
    [(blockRow, blockCol)] and element [(r', c')] of the tile
    [(blockRow', blockCol')] comes from the same tile and the same element.
    And every element [(i, j)] of the view below the last whole tile row
    and column is element [(i mod BLOCK_SIZE, j mod BLOCK_SIZE)] of the tile
    [(i / BLOCK_SIZE, j / BLOCK_SIZE)]. *)
Theorem X6_tiles_partition_view (M : Matrix) (s : kstate F)
        (blockRow blockCol r c blockRow' blockCol' r' c' : Z) :
  view_ok M ->
  0 <= blockRow -> (blockRow + 1) * BLOCK_SIZE <= height M ->
  0 <= blockCol -> (blockCol + 1) * BLOCK_SIZE <= width M ->
  0 <= blockRow' -> (blockRow' + 1) * BLOCK_SIZE <= height M ->
  0 <= blockCol' -> (blockCol' + 1) * BLOCK_SIZE <= width M ->
  0 <= r < BLOCK_SIZE -> 0 <= c < BLOCK_SIZE ->
  0 <= r' < BLOCK_SIZE -> 0 <= c' < BLOCK_SIZE ->
  (elem_addr (fst (GetSubMatrix M blockRow blockCol s)) r c
   = elem_addr (fst (GetSubMatrix M blockRow' blockCol' s)) r' c' ->
   blockRow = blockRow' /\ blockCol = blockCol' /\ r = r' /\ c = c')
  /\ elem_addr (fst (GetSubMatrix M ((blockRow * BLOCK_SIZE + r) / BLOCK_SIZE)
                                    ((blockCol * BLOCK_SIZE + c) / BLOCK_SIZE) s))
               ((blockRow * BLOCK_SIZE + r) mod BLOCK_SIZE)
               ((blockCol * BLOCK_SIZE + c) mod BLOCK_SIZE)
     = elem_addr M (blockRow * BLOCK_SIZE + r) (blockCol * BLOCK_SIZE + c).
Proof.
  intros HM Hbr Hbrh Hbc Hbcw Hbr' Hbrh' Hbc' Hbcw' Hr Hc Hr' Hc'.
  assert (Htile : forall br bc x y,
            0 <= br -> (br + 1) * BLOCK_SIZE <= height M ->
            0 <= bc -> (bc + 1) * BLOCK_SIZE <= width M ->
            elem_addr (fst (GetSubMatrix M br bc s)) x y
            = elem_addr M (br * BLOCK_SIZE + x) (bc * BLOCK_SIZE + y)).
  { intros br bc x y H1 H2 H3 H4. unfold GetSubMatrix, ret. cbn [fst].
    rewrite Asub_Tile by assumption. unfold Tile, elem_addr. cbn [elements stride].
    rewrite ptr_add_add. f_equal. lia. }
  split.
  - rewrite !Htile by assumption. intros Heq.
    destruct HM as (Hw & Hh & Hs & Hrange).
    apply elem_addr_inj in Heq as (Hi & Hj); unfold BLOCK_SIZE in *; lia.
  - rewrite Htile.
    + f_equal.
      * pose proof (Z.div_mod (blockRow * BLOCK_SIZE + r) BLOCK_SIZE
                              ltac:(unfold BLOCK_SIZE; lia)). lia.
      * pose proof (Z.div_mod (blockCol * BLOCK_SIZE + c) BLOCK_SIZE
                              ltac:(unfold BLOCK_SIZE; lia)). lia.
    + apply Z.div_pos; unfold BLOCK_SIZE in *; lia.
    + unfold BLOCK_SIZE in *.
      replace ((blockRow * 16 + r) / 16) with blockRow; [lia|].
      apply Z.div_unique with (r := r); lia.
    + apply Z.div_pos; unfold BLOCK_SIZE in *; lia.
    + unfold BLOCK_SIZE in *.
      replace ((blockCol * 16 + c) / 16) with blockCol; [lia|].
      apply Z.div_unique with (r := c); lia.
Qed.


(** * More on the host routine *)

Lemma MatMul_host_frame (A B C : Matrix) (general : bool) (u : uninitialised)
      (st : state F) :
  full_matrix C ->
  forall q, ~ in_buffer C q -> host (MatMul A B C general u st) q = host st q.
Proof.
  intros HC q Hq. destruct (MatMul_frame A B C general u st) as (_ & _ & g & p & ->).
  rewrite (@byte_size_full C HC). apply copy_out. unfold in_buffer in Hq. lia.
Qed.

Lemma MatMul_dense (A B C : Matrix) (general : bool) (u : uninitialised) (st : state F) :
  MatMul A B C general u st = MatMul (dense A) (dense B) (dense C) general u st.
Proof. destruct A, B, C. reflexivity. Qed.

Lemma MatMul_result_dense (A B C : Matrix) (general : bool) (u : uninitialised)
      (st : state F) (i j : Z) :
  dimension_invariant (dense A) (dense B) (dense C) ->
  fits A B C (live st) (capacity st) ->
  launch_ok st = true ->
  inside C i j ->
  host (MatMul A B C general u st) (dense_addr C i j)
  = sum_lr (fun e => fmul (host st (dense_addr A i e)) (host st (dense_addr B e j)))
           (width A).
Proof.
  intros Hdim Hfit Hok Hij. rewrite MatMul_dense.
  exact (@MatMul_result (dense A) (dense B) (dense C) general u st i j Hdim Hfit Hok Hij).
Qed.

(** X7.  [MatMul] never reads the field [stride] of its arguments: it
    behaves as on the descriptors with the stride set to the width.  The
    host matrices are therefore read and written with rows [width]
    elements apart: after a call that fits and whose launch is carried
    out, [C.elements[i * C.width + j]] is the left-to-right sum of
    [A.elements[i * A.width + e] * B.elements[e * B.width + j]]. *)
Theorem X7_MatMul_ignores_stride (A B C : Matrix) (general : bool) (u : uninitialised)
        (st : state F) (i j : Z) :
  dimension_invariant (dense A) (dense B) (dense C) ->
  fits A B C (live st) (capacity st) ->
  launch_ok st = true ->
  inside C i j ->
  MatMul A B C general u st = MatMul (dense A) (dense B) (dense C) general u st
  /\ host (MatMul A B C general u st) (dense_addr C i j)
     = sum_lr (fun e => fmul (host st (dense_addr A i e)) (host st (dense_addr B e j)))
              (width A).
Proof.
  intros Hdim Hfit Hok Hij. split; [apply MatMul_dense | now apply MatMul_result_dense].
Qed.

(** X8.  A launch that is not carried out does not stop [MatMul]: the copy
    back still runs, and every element of [C] is overwritten with what the
    buffer just allocated for [C] held, not with a product and not with
    the old element of [C]; the three buffers are released all the same. *)
Theorem X8_failed_launch_overwrites_C (A B C : Matrix) (general : bool)
        (u : uninitialised) (st : state F) (i j : Z) :
  full_matrix C ->
  fits A B C (live st) (capacity st) ->
  launch_ok st = false ->
  inside C i j ->
  host (MatMul A B C general u st) (elem_addr C i j)
  = gmem (device st) {| blk := fresh (live st) + 2; off := i * width C + j |}
  /\ live (MatMul A B C general u st) = live st.
Proof.
  intros HC Hfit Hok (Hi & Hj).
  destruct (@MatMul_fits A B C general u st Hfit) as (Hhost & _ & Hlive & _).
  cbv zeta in Hhost. split; [|exact Hlive]. rewrite Hhost.
  pose proof (@byte_size_full C HC) as Hn.
  destruct HC as ((HCw & HCh & HCs & HCi) & HCfull).
  rewrite copy_in; [| reflexivity |].
  2:{ unfold elem_addr, ptr_add. cbn [off]. rewrite Hn, HCfull. nia. }
  unfold launched. rewrite Hok. unfold staged. cbn [gmem].
  rewrite !copy_out by (left; cbn [blk ptr_add]; lia).
  f_equal. unfold elem_addr, ptr_add. cbn [blk off]. rewrite HCfull. f_equal. lia.
Qed.

Lemma to_int_range (z : Z) : INT_MIN <= to_int z <= INT_MAX.
Proof.
  unfold to_int, INT_MIN, INT_MAX.
  pose proof (Z.mod_pos_bound (z + 2147483648) 4294967296 ltac:(lia)). lia.
Qed.

(** X9.  [size_t size = M.width * M.height * sizeof(float)] multiplies the
    two [int]s first: for a matrix whose fields are non-negative [int]s,
    the size is the number of bytes of its elements exactly when the number
    of elements is at most [INT_MAX]. *)
Theorem X9_byte_size_exact_iff (M : Matrix) :
  0 <= width M <= INT_MAX -> 0 <= height M <= INT_MAX ->
  (byte_size M = width M * height M * sizeof_float <-> width M * height M <= INT_MAX).
Proof.
  unfold INT_MAX. intros Hw Hh. split.
  - intros Heq. unfold byte_size, imul, sizeof_float, to_size in Heq.
    pose proof (to_int_range (width M * height M)) as Ht.
    unfold INT_MIN, INT_MAX in Ht.
    set (n := width M * height M) in *. set (t := to_int n) in *.
    assert (Hn : 0 <= n <= 2147483647 * 2147483647) by (unfold n; nia).
    destruct (Z_le_gt_dec n 2147483647) as [|Hbig]; [assumption|exfalso].
    destruct (Z_le_gt_dec 0 t) as [Hpos|Hneg].
    + rewrite (Z.mod_small t) in Heq by lia.
      rewrite Z.mod_small in Heq by lia. lia.
    + assert (E1 : t mod 18446744073709551616 = t + 18446744073709551616).
      { symmetry. apply Z.mod_unique with (q := -1); lia. }
      rewrite E1 in Heq.
      assert (E2 : ((t + 18446744073709551616) * 4) mod 18446744073709551616
                   = 4 * t + 18446744073709551616).
      { symmetry. apply Z.mod_unique with (q := 3); lia. }
      rewrite E2 in Heq. lia.
  - intros Hn. unfold byte_size, imul, sizeof_float, to_size.
    assert (Hn' : 0 <= width M * height M) by nia.
    rewrite to_int_small by (unfold INT_MIN, INT_MAX; lia).
    rewrite (Z.mod_small (width M * height M)) by lia.
    rewrite Z.mod_small by lia. reflexivity.
Qed.

Lemma main_invariant (pa pb pc sa sb sc : Z) :
  dimension_invariant (dense (main_matrix pa sa)) (dense (main_matrix pb sb))
                      (dense (main_matrix pc sc)).
Proof.
  unfold dimension_invariant, full_matrix, view_ok, multiple_of_BLOCK, dense,
    main_matrix, main_sz, BLOCK_SIZE, INT_MAX.
  cbn [width height stride]. repeat split; try lia; reflexivity.
Qed.

(** X10.  The two multiplications of [main]: on the three arrays of
    [main] (square of side [64 * BLOCK_SIZE], the strides never set, any
    contents), with room in the pool for the three buffers and the launches
    carried out, the call with the direct kernel leaves in [c] the product
    of [a] and [b], the call with the tiled kernel that follows leaves
    every element of [c] as it found it, [a] and [b] keep their elements,
    and the pool ends as it started. *)
Theorem X10_main_multiplications (pa pb pc sa sb sc : Z) (u1 u2 : uninitialised)
        (st : state F) (i j : Z) :
  let a := main_matrix pa sa in
  let b := main_matrix pb sb in
  let c := main_matrix pc sc in
  pa <> pc -> pb <> pc ->
  fits a b c (live st) (capacity st) ->
  launch_ok st = true ->
  0 <= i < main_sz -> 0 <= j < main_sz ->
  host (MatMul a b c true u1 st) (dense_addr c i j)
  = sum_lr (fun e => fmul (host st (dense_addr a i e)) (host st (dense_addr b e j)))
           main_sz
  /\ host (main_multiplications a b c u1 u2 st) (dense_addr c i j)
     = host (MatMul a b c true u1 st) (dense_addr c i j)
  /\ host (main_multiplications a b c u1 u2 st) (dense_addr a i j)
     = host st (dense_addr a i j)
  /\ host (main_multiplications a b c u1 u2 st) (dense_addr b i j)
     = host st (dense_addr b i j)
  /\ live (main_multiplications a b c u1 u2 st) = live st.
Proof.
  intros a b c Hac Hbc Hfit Hok Hi Hj.
  pose proof (main_invariant pa pb pc sa sb sc) as Hdim. fold a b c in Hdim.
  assert (Hin : inside c i j) by (unfold inside, c, main_matrix; cbn [width height]; lia).
  set (st' := MatMul a b c true u1 st).
  assert (Hl' : live st' = live st).
  { unfold st'. now destruct (@MatMul_fits a b c true u1 st Hfit) as (_ & _ & Hl & _). }
  destruct (@MatMul_frame a b c true u1 st) as (Hc' & Hok' & _). fold st' in Hc', Hok'.
  assert (Hfit' : fits a b c (live st') (capacity st')) by now rewrite Hl', Hc'.
  assert (Hok2 : launch_ok st' = true) by now rewrite Hok'.
  assert (HC : full_matrix (dense c)) by apply Hdim.
  assert (Hout : forall (M : Matrix) (p : Z) (sM : Z) r e (s0 : state F) g u',
            M = main_matrix p sM -> p <> pc ->
            host (MatMul a b c g u' s0) (dense_addr M r e) = host s0 (dense_addr M r e)).
  { intros M p sM r e s0 g u' -> Hp. rewrite MatMul_dense.
    pose proof (@MatMul_host_frame (dense a) (dense b) (dense c) g u' s0 HC) as Hframe.
    apply Hframe. intros (Hblk & _). apply Hp.
    unfold dense_addr, dense, main_matrix, c in Hblk. cbn in Hblk. exact Hblk. }
  assert (H1 : host st' (dense_addr c i j)
               = sum_lr (fun e => fmul (host st (dense_addr a i e))
                                       (host st (dense_addr b e j))) main_sz).
  { unfold st'. now apply MatMul_result_dense. }
  split; [exact H1|]. split; [|split; [|split]].
  - unfold main_multiplications. fold st'.
    rewrite (@MatMul_result_dense a b c false u2 st' i j Hdim Hfit' Hok2 Hin), H1.
    unfold sum_lr. apply fold_left_ext_in. intros e acc _.
    unfold st'. rewrite (Hout a pa sa i e st true u1 eq_refl Hac).
    rewrite (Hout b pb sb e j st true u1 eq_refl Hbc). reflexivity.
  - unfold main_multiplications. fold st'.
    rewrite (Hout a pa sa i j st' false u2 eq_refl Hac). unfold st'.
    apply (Hout a pa sa i j st true u1 eq_refl Hac).
  - unfold main_multiplications. fold st'.
    rewrite (Hout b pb sb i j st' false u2 eq_refl Hbc). unfold st'.
    apply (Hout b pb sb i j st true u1 eq_refl Hbc).
  - unfold main_multiplications. fold st'.
    destruct (@MatMul_fits a b c false u2 st' Hfit') as (_ & _ & Hl & _). congruence.
Qed.


(** X11.  An empty contraction: when [A] has no column (and [B] no row),
    neither kernel adds anything to [Cvalue = 0], and a call that fits and
    whose launch is carried out sets every element of [C] to [0]. *)
Theorem X11_empty_contraction (A B C : Matrix) (general : bool) (u : uninitialised)
        (st : state F) (i j : Z) :
  dimension_invariant A B C ->
  width A = 0 ->
  fits A B C (live st) (capacity st) ->
  launch_ok st = true ->
  inside C i j ->
  host (MatMul A B C general u st) (elem_addr C i j) = fzero.
Proof.
  intros Hdim Hw Hfit Hok Hij. rewrite MatMul_result by assumption.
  unfold product_elem, sum_lr. rewrite Hw. reflexivity.
Qed.

(** X12.  An empty output: when [C] has no element, [MatMul] leaves the
    whole host memory as it was, on every path. *)
Theorem X12_empty_output (A B C : Matrix) (general : bool) (u : uninitialised)
        (st : state F) (q : ptr) :
  full_matrix C ->
  width C * height C = 0 ->
  host (MatMul A B C general u st) q = host st q.
Proof.
  intros HC Hempty. apply MatMul_host_frame; [assumption|].
  unfold in_buffer. rewrite Hempty. lia.
Qed.

(** X13.  The grid that [MatMul] computes tiles [C] exactly: under the
    dimension invariant every element of [C] belongs to a block of the
    grid, to one block only, and the grid has one thread per element of
    [C]. *)
Theorem X13_grid_tiles_C (A B C : Matrix) (i j : Z) :
  dimension_invariant A B C ->
  inside C i j ->
  (exists b, In b (dim3_indices (dimGrid_host A B)) /\ block_owns b i j)
  /\ (forall b b', block_owns b i j -> block_owns b' i j -> b = b')
  /\ Z.of_nat (length (dim3_indices (dimGrid_host A B))) * (BLOCK_SIZE * BLOCK_SIZE)
     = width C * height C.
Proof.
  intros Hdim Hij.
  rewrite (@dimGrid_host_of A B C 0 0 Hdim).
  change (dimGrid_of (dev_matrix A 0) (dev_matrix B 0)) with (dimGrid_of A B).
  split; [now apply grid_covers with (C := C)|]. split.
  - intros [bx by_] [bx' by'] (Hy & Hx) (Hy' & Hx').
    cbn [dim_x dim_y] in *. unfold BLOCK_SIZE in *. f_equal; lia.
  - destruct Hdim as (HA & HB & HC & HwA & HhA & HwB & HwC & HhC & Hab & Hac & Hbc).
    destruct HA as ((? & ? & ? & ?) & ?), HB as ((? & ? & ? & ?) & ?).
    rewrite length_dim3_indices.
    + unfold dimGrid_of. cbn [dim_x dim_y]. apply multiple_div in HhA, HwB.
      rewrite <- Hbc, <- Hac. unfold BLOCK_SIZE in *. lia.
    + unfold dimGrid_of. cbn [dim_x]. apply Z.div_pos; unfold BLOCK_SIZE; lia.
    + unfold dimGrid_of. cbn [dim_y]. apply Z.div_pos; unfold BLOCK_SIZE; lia.
Qed.

End Proofs.

(** * Worked instances *)

Ltac concrete :=
  vm_compute; repeat split;
  try reflexivity; try (let Hx := fresh in intro Hx; discriminate Hx).

(** The minimal scenario: one block, one iteration, [A] all ones and [B]
    holding the row index; every element of [C] is [0 + 1 + ... + 15]. *)
Example minimal_scenario_tiled :
  host (MatMul mA mB mC false null_junk st0) (elem_addr mC 3 5) = b32_of_Z 120.
Proof. vm_compute. reflexivity. Qed.

Example minimal_scenario_direct :
  host (MatMul mA mB mC true null_junk st0) (elem_addr mC 3 5) = b32_of_Z 120.
Proof. vm_compute. reflexivity. Qed.

Lemma dimension_invariant_minimal : dimension_invariant mA mB mC.
Proof. concrete. Qed.

Lemma C1_witness :
  dimension_invariant mA mB mC
  /\ gmem (snd (launch KernelPartitioned (dimGrid_of mA mB) dimBlock16 mA mB mC dev0))
          (elem_addr mC (0 * BLOCK_SIZE + 3) (0 * BLOCK_SIZE + 5))
     = sum_lr (fun e => fmul (gmem dev0 (elem_addr mA (0 * BLOCK_SIZE + 3) e))
                             (gmem dev0 (elem_addr mB e (0 * BLOCK_SIZE + 5))))
              (width mA).
Proof.
  split; [concrete|].
  apply (@C1_tiled_kernel_product spec_float binary32 mA mB mC dev0 0 0 3 5); concrete.
Defined.

Lemma C2_witness :
  dimension_invariant mA mB mC
  /\ fits mA mB mC (live st0) (capacity st0)
  /\ host (MatMul mA mB mC false null_junk st0) (elem_addr mC 3 5)
     = host (MatMul mA mB mC true null_junk st0) (elem_addr mC 3 5).
Proof.
  split; [concrete|]. split; [concrete|].
  apply (@C2_strategies_agree spec_float binary32 mA mB mC null_junk st0
                              (elem_addr mC 3 5)); concrete.
Defined.

Lemma C3_witness :
  inside mC 3 5
  /\ gmem (snd (MatMulKernelGeneral mA mB mC (Build_dim3 0 0) dimBlock16
                                    (Build_dim3 5 3) dev0))
          (elem_addr mC 3 5)
     = sum_lr (fun e => fmul (gmem dev0 (elem_addr mA 3 e)) (gmem dev0 (elem_addr mB e 5)))
              (width mA).
Proof.
  split; [concrete|].
  apply (@C3_direct_kernel_thread spec_float binary32 mA mB mC (Build_dim3 0 0)
                                  dimBlock16 (Build_dim3 5 3) dev0); concrete.
Defined.

Lemma C5_witness :
  view_ok bigA
  /\ GetSubMatrix bigA 1 1 dev0
     = ({| width := BLOCK_SIZE; height := BLOCK_SIZE; stride := stride bigA;
           elements := ptr_add (elements bigA)
                               (stride bigA * BLOCK_SIZE * 1 + BLOCK_SIZE * 1) |},
        dev0).
Proof.
  split; [concrete|].
  apply (@C5_GetSubMatrix_tile spec_float bigA 1 1 dev0); concrete.
Defined.


Lemma C7_witness :
  full_matrix mC
  /\ host (MatMul mA mB mC false null_junk st0) (elem_addr mA 3 5)
     = host st0 (elem_addr mA 3 5).
Proof.
  split; [concrete|].
  apply (@C7_only_C_changes spec_float binary32 mA mB mC false null_junk st0);
    try solve [concrete].
  intros q (Hq & _) (Hc & _). rewrite Hq in Hc. discriminate Hc.
Defined.

Lemma C8_witness :
  view_ok wA /\ view_ok wB
  /\ fst (fst (Partitioned_loop wA wB (Build_dim3 0 0) dimBlock16 dev0)) = 2
  /\ snd (fst (Partitioned_loop wA wB (Build_dim3 0 0) dimBlock16 dev0)) 3 5
     = sum_lr (fun e => fmul (gmem dev0 (elem_addr wA (0 * BLOCK_SIZE + 3) e))
                             (gmem dev0 (elem_addr wB e (0 * BLOCK_SIZE + 5))))
              (BLOCK_SIZE * (width wA / BLOCK_SIZE)).
Proof.
  split; [concrete|]. split; [concrete|].
  pose proof (@C8_tiled_loop_whole_tiles spec_float binary32 wA wB (Build_dim3 0 0)
                                         dev0 3 5) as W.
  cbv zeta in W. cbn [dim_x dim_y] in W.
  assert (W' := W ltac:(concrete) ltac:(concrete) ltac:(concrete) ltac:(concrete)
                  ltac:(concrete) ltac:(concrete) ltac:(concrete) ltac:(concrete)
                  ltac:(concrete)).
  split; [exact (proj1 W') | exact (proj1 (proj2 W'))].
Defined.

Lemma C9_witness :
  view_ok pA
  /\ trace (snd (MatMulKernelGeneral pA mB mC (Build_dim3 0 0) dimBlock16
                                     (Build_dim3 0 1) dev0))
     = trace dev0
       ++ flat_map (fun e => [Rd (dense_addr pA (0 * BLOCK_SIZE + 1) e);
                              Rd (dense_addr mB e (0 * BLOCK_SIZE + 0))])
                   (range (width pA))
       ++ [Wr (dense_addr mC (0 * BLOCK_SIZE + 1) (0 * BLOCK_SIZE + 0))].
Proof.
  split; [concrete|].
  pose proof (@C9_accesses_by_kernel spec_float binary32 pA mB mC (Build_dim3 0 0)
                                     (Build_dim3 0 1) dev0) as W.
  cbv zeta in W. cbn [dim_x dim_y] in W.
  assert (W' := W ltac:(concrete) ltac:(concrete) ltac:(concrete) ltac:(concrete)
                  ltac:(concrete) ltac:(concrete) ltac:(concrete) ltac:(concrete)
                  ltac:(concrete) ltac:(concrete) ltac:(concrete) ltac:(concrete)).
  exact (proj1 (proj2 (proj2 W'))).
Defined.

Lemma C10_witness :
  dimension_invariant mA mB mC
  /\ host (MatMul mA mB mC false null_junk st0) (elem_addr mC 3 5)
     = host (MatMul mA mB mC false stale_junk st1) (elem_addr mC 3 5).
Proof.
  split; [concrete|].
  apply (@C10_result_depends_on_A_B spec_float binary32 mA mB mC false
                                    null_junk stale_junk st0 st1 3 5);
    solve [concrete | intros; reflexivity].
Defined.

(** * Where the code parts from the specification as written *)

(** C4 as written: with the flag [true], [MatMul] launches the direct
    kernel, not the tiled one. *)
Lemma C4_counterexample :
  launched_kernels (events (MatMul mA mB mC true null_junk st0)) <> [KernelPartitioned].
Proof. rewrite MatMul_kernels. cbn. discriminate. Qed.


(** C9 as written: the view [pA] has rows 32 elements apart, and the thread
    of the direct kernel for row 1 reads the offset 16 of its buffer, where
    the layout rule places no element of [pA]. *)
Lemma C9_counterexample :
  ~ Forall (layout_access pA mB mC)
      (trace (snd (MatMulKernelGeneral pA mB mC (Build_dim3 0 0) dimBlock16
                                       (Build_dim3 0 1) dev0))).
Proof.
  intros Hall. rewrite Forall_forall in Hall.
  specialize (Hall (Rd (ptr_add (buffer 1) 16))).
  assert (Hin : In (Rd (ptr_add (buffer 1) 16))
                   (trace (snd (MatMulKernelGeneral pA mB mC (Build_dim3 0 0) dimBlock16
                                                    (Build_dim3 0 1) dev0)))).
  { vm_compute. left. reflexivity. }
  specialize (Hall Hin). cbn [layout_access] in Hall.
  destruct Hall as [(i & e & (Hi & He) & Heq)|(e & j & _ & Heq)].
  - unfold elem_addr, ptr_add, pA, buffer in Heq. cbn in Heq, Hi, He.
    inversion Heq. lia.
  - unfold elem_addr, ptr_add, mB, buffer in Heq. cbn in Heq. inversion Heq.
Qed.

(** * Worked instances of the further properties *)

Lemma X1_witness :
  dimension_invariant mA mB mC
  /\ gmem (snd (launch KernelGeneral (dimGrid_of mA mB) dimBlock16 mA mB mC dev0))
          (elem_addr mC 3 5)
     = sum_lr (fun e => fmul (gmem dev0 (elem_addr mA 3 e)) (gmem dev0 (elem_addr mB e 5)))
              (width mA).
Proof.
  split; [concrete|].
  apply (@X1_direct_kernel_product spec_float binary32 mA mB mC dev0); concrete.
Defined.

Lemma X2_witness :
  dimension_invariant bigA bigB bigC
  /\ gmem (snd (launch_blocks KernelPartitioned (rev (dim3_indices (dimGrid_of bigA bigB)))
                              dimBlock16 bigA bigB bigC dev0))
          (elem_addr bigC 20 7)
     = gmem (snd (launch KernelPartitioned (dimGrid_of bigA bigB) dimBlock16
                         bigA bigB bigC dev0))
            (elem_addr bigC 20 7).
Proof.
  split; [concrete|].
  apply (@X2_block_order_irrelevant spec_float binary32 KernelPartitioned bigA bigB bigC
           (rev (dim3_indices (dimGrid_of bigA bigB))) dev0 20 7);
    try solve [concrete].
  intros b. symmetry. apply in_rev.
Defined.

Lemma X3_witness :
  fst (Partitioned_iteration mA mB 0 0 (dim3_indices dimBlock16) 0
                             (fun _ _ => fzero) dev0) 3 5
  = fst (Partitioned_iteration mA mB 0 0 (rev (dim3_indices dimBlock16)) 0
                               (fun _ _ => fzero) dev0) 3 5.
Proof.
  apply (@X3_thread_order_irrelevant spec_float binary32 mA mB 0 0 0
           (dim3_indices dimBlock16) (rev (dim3_indices dimBlock16))
           (fun _ _ => fzero) dev0 3 5).
  - apply small_indices_block.
  - apply NoDup_dim3_indices.
  - exact in_block.
  - intros t Ht. apply small_indices_block. now apply in_rev.
  - apply NoDup_rev, NoDup_dim3_indices.
  - intros r c Hr Hc. apply in_rev. rewrite rev_involutive. now apply in_block.
  - concrete.
  - concrete.
Defined.

Lemma X4_witness :
  count_reads (trace (snd (MatMulKernelPartitioned wA wB mC (Build_dim3 0 0) dimBlock16 dev0)))
  = count_reads (trace dev0) + 2 * (BLOCK_SIZE * BLOCK_SIZE) * (width wA / BLOCK_SIZE).
Proof.
  apply (@X4_global_memory_traffic spec_float binary32 wA wB mC (Build_dim3 0 0)
                                   (Build_dim3 0 0) dev0).
  concrete.
Defined.

Lemma X6_witness :
  view_ok bigA
  /\ elem_addr (fst (GetSubMatrix bigA ((1 * BLOCK_SIZE + 3) / BLOCK_SIZE)
                                   ((0 * BLOCK_SIZE + 5) / BLOCK_SIZE) dev0))
               ((1 * BLOCK_SIZE + 3) mod BLOCK_SIZE) ((0 * BLOCK_SIZE + 5) mod BLOCK_SIZE)
     = elem_addr bigA (1 * BLOCK_SIZE + 3) (0 * BLOCK_SIZE + 5).
Proof.
  split; [concrete|].
  apply (@X6_tiles_partition_view spec_float bigA dev0 1 0 3 5 0 1 0 15); concrete.
Defined.

Lemma X7_witness :
  dimension_invariant (dense pA) (dense mB) (dense mC)
  /\ host (MatMul pA mB mC false null_junk st0) (dense_addr mC 3 5)
     = sum_lr (fun e => fmul (host st0 (dense_addr pA 3 e)) (host st0 (dense_addr mB e 5)))
              (width pA).
Proof.
  split; [concrete|].
  apply (@X7_MatMul_ignores_stride spec_float binary32 pA mB mC false null_junk st0 3 5);
    concrete.
Defined.

Lemma X8_witness :
  launch_ok st_nolaunch = false
  /\ host (MatMul mA mB mC false null_junk st_nolaunch) (elem_addr mC 3 5)
     = gmem (device st_nolaunch)
            {| blk := fresh (live st_nolaunch) + 2; off := 3 * width mC + 5 |}.
Proof.
  split; [reflexivity|].
  apply (@X8_failed_launch_overwrites_C spec_float binary32 mA mB mC false null_junk
                                        st_nolaunch 3 5); concrete.
Defined.

Lemma X9_witness :
  byte_size mA = width mA * height mA * sizeof_float <-> width mA * height mA <= INT_MAX.
Proof. apply (@X9_byte_size_exact_iff mA); concrete. Defined.

Lemma X10_witness :
  fits (main_matrix 1 0) (main_matrix 2 (-5)) (main_matrix 3 77)
       (live st_big) (capacity st_big)
  /\ host (main_multiplications (main_matrix 1 0) (main_matrix 2 (-5)) (main_matrix 3 77)
                                null_junk null_junk st_big)
          (dense_addr (main_matrix 3 77) 100 200)
     = host (MatMul (main_matrix 1 0) (main_matrix 2 (-5)) (main_matrix 3 77) true
                    null_junk st_big)
            (dense_addr (main_matrix 3 77) 100 200).
Proof.
  split; [concrete|].
  pose proof (@X10_main_multiplications spec_float binary32 1 2 3 0 (-5) 77
                                        null_junk null_junk st_big 100 200) as W.
  cbv zeta in W.
  assert (W' := W ltac:(concrete) ltac:(concrete) ltac:(concrete) ltac:(concrete)
                  ltac:(concrete) ltac:(concrete)).
  exact (proj1 (proj2 W')).
Defined.

Lemma X11_witness :
  dimension_invariant eA eB mC
  /\ host (MatMul eA eB mC false null_junk st0) (elem_addr mC 3 5) = fzero.
Proof.
  split; [concrete|].
  apply (@X11_empty_contraction spec_float binary32 eA eB mC false null_junk st0 3 5);
    concrete.
Defined.

Lemma X12_witness :
  full_matrix eC
  /\ host (MatMul mA mB eC true null_junk st0) (elem_addr mC 3 5)
     = host st0 (elem_addr mC 3 5).
Proof.
  split; [concrete|].
  apply (@X12_empty_output spec_float binary32 mA mB eC true null_junk st0
                           (elem_addr mC 3 5)); concrete.
Defined.

Lemma X13_witness :
  dimension_invariant bigA bigB bigC
  /\ Z.of_nat (length (dim3_indices (dimGrid_host bigA bigB))) * (BLOCK_SIZE * BLOCK_SIZE)
     = width bigC * height bigC.
Proof.
  split; [concrete|].
  apply (@X13_grid_tiles_C bigA bigB bigC 20 7); concrete.
Defined.
